(** * Autobridge calculator (src/js/ripple/autobridgecalculator.js)

    A shallow embedding of the autobridge engine: the two-pointer merge of
    [calculate], the funding clamp on leg-one offers, the ledger of leftover
    owner funds and the formatter of autobridged offers.

    The collaborators that the file requires ([./amount],
    [./orderbookutils], [./uint160], the currency objects) are taken as
    interfaces ([Amount.Ops] with [Amount.Laws], [Currency.Ops],
    [UInt160.Ops], [Utils.Encoder]) whose operations are those the engine
    calls.  A thrown assertion is [None]; an object mutated in place is a
    record threaded through the calls and stored back in its array.  Exact
    rational arithmetic ([Qc]) is the instance on which concrete runs are
    evaluated. *)

From Stdlib Require Import ZArith QArith Qcanon.
From stdpp Require Import base option list gmap strings.

Local Open Scope Z_scope.

(** ** The [Amount] collaborator *)

Module Amount.

(** Modelled from the spec: the [Amount] class of ./amount, which the
    calculator only requires.
    The spec gives it as an exact arbitrary-precision primitive with add,
    subtract, multiply, divide, ordering comparison, zero test and canonical
    text form.  [text] is the type of the numeric strings that [to_text]
    produces and that offers carry in their JSON fields; [from_json] reads
    such a string back; [compareTo] returns a JavaScript number (negative,
    zero or positive); [zero] is [Utils.normalizeAmount('0')]. *)
Class Ops := {
  t : Type;
  text : Type;
  text_eq_dec : EqDecision text;
  add : t → t → t;
  subtract : t → t → t;
  multiply : t → t → t;
  divide : t → t → t;
  compareTo : t → t → Z;
  is_zero : t → bool;
  to_text : t → text;
  from_json : text → t;
  zero : t
}.

#[global] Existing Instance text_eq_dec.

(** Modelled from the spec: what "exact" and "canonical" mean for the
    operations above, as far as the engine relies on it. *)
Class Laws (O : Ops) : Prop := {
  from_json_to_text : ∀ a : t, from_json (to_text a) = a;
  compareTo_eq : ∀ a b : t, compareTo a b = 0 ↔ a = b;
  compareTo_antisym : ∀ a b : t, compareTo b a = - compareTo a b;
  is_zero_spec : ∀ a : t, is_zero a = true ↔ a = zero;
  add_zero_r : ∀ a : t, add a zero = a;
  subtract_diag : ∀ a : t, subtract a a = zero;
  subtract_nonneg : ∀ a b : t,
    0 ≤ compareTo a b → 0 ≤ compareTo (subtract a b) zero;
  add_nonneg : ∀ a b : t,
    0 ≤ compareTo a zero → 0 ≤ compareTo b zero →
    0 ≤ compareTo (add a b) zero
}.

End Amount.

(** ** Currency objects, account validation *)

Module Currency.

(** Modelled from the spec: the currency encoder, "textual/hex form of a
    currency identifier for output records". *)
Class Ops := {
  t : Type;
  to_hex : t → string
}.

End Currency.

Module UInt160.

(** Modelled from the spec: the account identifier validator, a "format
    check, used as a precondition guard on every public operation taking an
    account". *)
Class Ops := {
  is_valid : string → bool
}.

End UInt160.

(** ** Offers as JavaScript objects *)

Section Offers.
Context `{O : Amount.Ops}.

(** The values an offer's [TakerGets] and [TakerPays] properties hold: a
    primitive numeric string (a native, bridge-denominated amount), a plain
    object [{value, currency, issuer}], or an [Amount] instance. *)
Inductive JsVal :=
| JsString (s : Amount.text)
| JsObject (value : Amount.text) (currency issuer : string)
| JsAmount (a : Amount.t).

(** [typeof v === 'object'] *)
Definition typeof_object (v : JsVal) : bool :=
  match v with
  | JsString _ => false
  | JsObject _ _ _ | JsAmount _ => true
  end.

(** [typeof v === 'string'] *)
Definition typeof_string (v : JsVal) : bool :=
  match v with
  | JsString _ => true
  | JsObject _ _ _ | JsAmount _ => false
  end.

(** [v instanceof Amount] *)
Definition instanceof_Amount (v : JsVal) : bool :=
  match v with
  | JsAmount _ => true
  | JsString _ | JsObject _ _ _ => false
  end.

(** [isNaN(v)]: a numeric string converts to a number, an object does not. *)
Definition isNaN (v : JsVal) : bool :=
  match v with
  | JsString _ => false
  | JsObject _ _ _ | JsAmount _ => true
  end.

(** [v.value]: only the plain amount object has a [value] property; on a
    primitive string and on an [Amount] instance the access yields
    [undefined], here [None]. *)
Definition prop_value (v : JsVal) : option Amount.text :=
  match v with
  | JsObject value _ _ => Some value
  | JsString _ | JsAmount _ => None
  end.

(** An order-book offer.  [initTakerGetsFunded] is the transient property
    that [unclampLegOneOwnerFunds] attaches; it is [undefined] ([None]) on an
    offer that was never unclamped. *)
Record Offer := {
  Account : string;
  BookDirectory : string;
  TakerGets : JsVal;
  TakerPays : JsVal;
  quality : Amount.text;
  taker_gets_funded : Amount.text;
  taker_pays_funded : Amount.text;
  is_fully_funded : bool;
  initTakerGetsFunded : option Amount.t
}.

(** Property assignments [offer.p = v]. *)
Definition set_TakerGets (v : JsVal) (o : Offer) : Offer :=
  {| Account := Account o; BookDirectory := BookDirectory o;
     TakerGets := v; TakerPays := TakerPays o; quality := quality o;
     taker_gets_funded := taker_gets_funded o;
     taker_pays_funded := taker_pays_funded o;
     is_fully_funded := is_fully_funded o;
     initTakerGetsFunded := initTakerGetsFunded o |}.

Definition set_TakerPays (v : JsVal) (o : Offer) : Offer :=
  {| Account := Account o; BookDirectory := BookDirectory o;
     TakerGets := TakerGets o; TakerPays := v; quality := quality o;
     taker_gets_funded := taker_gets_funded o;
     taker_pays_funded := taker_pays_funded o;
     is_fully_funded := is_fully_funded o;
     initTakerGetsFunded := initTakerGetsFunded o |}.

Definition set_taker_gets_funded (v : Amount.text) (o : Offer) : Offer :=
  {| Account := Account o; BookDirectory := BookDirectory o;
     TakerGets := TakerGets o; TakerPays := TakerPays o; quality := quality o;
     taker_gets_funded := v;
     taker_pays_funded := taker_pays_funded o;
     is_fully_funded := is_fully_funded o;
     initTakerGetsFunded := initTakerGetsFunded o |}.

Definition set_taker_pays_funded (v : Amount.text) (o : Offer) : Offer :=
  {| Account := Account o; BookDirectory := BookDirectory o;
     TakerGets := TakerGets o; TakerPays := TakerPays o; quality := quality o;
     taker_gets_funded := taker_gets_funded o;
     taker_pays_funded := v;
     is_fully_funded := is_fully_funded o;
     initTakerGetsFunded := initTakerGetsFunded o |}.

Definition set_is_fully_funded (v : bool) (o : Offer) : Offer :=
  {| Account := Account o; BookDirectory := BookDirectory o;
     TakerGets := TakerGets o; TakerPays := TakerPays o; quality := quality o;
     taker_gets_funded := taker_gets_funded o;
     taker_pays_funded := taker_pays_funded o;
     is_fully_funded := v;
     initTakerGetsFunded := initTakerGetsFunded o |}.

Definition set_initTakerGetsFunded (v : Amount.t) (o : Offer) : Offer :=
  {| Account := Account o; BookDirectory := BookDirectory o;
     TakerGets := TakerGets o; TakerPays := TakerPays o; quality := quality o;
     taker_gets_funded := taker_gets_funded o;
     taker_pays_funded := taker_pays_funded o;
     is_fully_funded := is_fully_funded o;
     initTakerGetsFunded := Some v |}.

End Offers.

(** ** Order-book utilities *)

Module Utils.

Section Accessors.
Context `{O : Amount.Ops} `{C : Currency.Ops}.

(** Modelled from the spec: the accessors of ./orderbookutils, which the
    calculator only requires.  The spec gives them as "pure functions
    returning an offer's funded takerGets/takerPays, its nominal
    takerGets/takerPays, and its normalized quality relative to a reference
    currency".  The funded takerGets is read from the offer's
    [taker_gets_funded] text. *)
Definition getOfferTakerGetsFunded (offer : Offer) : Amount.t :=
  Amount.from_json (taker_gets_funded offer).

(** Modelled from the spec: the funded takerPays accessor of
    ./orderbookutils, read from the offer's [taker_pays_funded] text. *)
Definition getOfferTakerPaysFunded (offer : Offer) : Amount.t :=
  Amount.from_json (taker_pays_funded offer).

(** Modelled from the spec: the quality accessor of ./orderbookutils.  The
    offer's [quality] text is taken to be the normalized quality already; the
    reference currency selects no other value. *)
Definition getOfferQuality (offer : Offer) (currencyGets : Currency.t)
  : Amount.t :=
  Amount.from_json (quality offer).

(** Modelled from the spec: the nominal takerGets accessor of
    ./orderbookutils, as an [Amount], whatever shape the property has. *)
Definition getOfferTakerGets (offer : Offer) : Amount.t :=
  match TakerGets offer with
  | JsString s => Amount.from_json s
  | JsObject value _ _ => Amount.from_json value
  | JsAmount a => a
  end.

(** Modelled from the spec: [Utils.normalizeAmount('0')], the zero amount
    that the ledger defaults to. *)
Definition normalizeAmount_0 : Amount.t := Amount.zero.

End Accessors.

(** Modelled from the spec: the quality-to-sortkey encoder, a
    "deterministic, order-preserving mapping from a quality ratio to a
    comparable key usable as a book-position directory". *)
Class Encoder `{O : Amount.Ops} := {
  convertOfferQualityToHex : Amount.t → string
}.

End Utils.

(** ** Autobridged offers *)

Module Autobridged.

Section Records.
Context `{O : Amount.Ops}.

(** The object literal [{value, currency, issuer}] of an emitted offer; an
    [issuer] that reads [undefined] is [None]. *)
Record amount := {
  value : Amount.text;
  currency : string;
  issuer : option string
}.

(** The object that [formatAutobridgedOffer] builds. *)
Record t := {
  TakerGets : amount;
  TakerPays : amount;
  quality : Amount.text;
  taker_gets_funded : Amount.text;
  taker_pays_funded : Amount.text;
  autobridged : bool;
  BookDirectory : string
}.

End Records.

End Autobridged.

(** ** The calculator *)

Section AutobridgeCalculator.
Context `{O : Amount.Ops} `{C : Currency.Ops} `{U : UInt160.Ops}
  `{E : !Utils.Encoder}.

(** [assert(cond)]: [None] stands for the thrown AssertionError. *)
Definition assert (cond : bool) : option unit :=
  if cond then Some () else None.

(** Lines 9-11. *)
Definition assertValidNumber (number : JsVal) : option unit :=
  assert (negb (isNaN number)).

(** Lines 13-18.  An [Offer] is a non-null object, so the first two checks
    hold of every offer. *)
Definition assertValidLegOneOffer (legOneOffer : Offer) : option unit :=
  assert (typeof_object (TakerPays legOneOffer));;
  assertValidNumber (TakerGets legOneOffer).

(** The calculator object.  [_issuerGets] and [_issuerPays] are the
    properties that [formatAutobridgedOffer] reads. *)
Record Engine := {
  _currencyGets : Currency.t;
  _currencyPays : Currency.t;
  _issuerGets : option string;
  _issuerPays : option string;
  legOneOffers : list Offer;
  legTwoOffers : list Offer;
  _ownerFundsLeftover : gmap string Amount.t
}.

(** [this._ownerFundsLeftover = m] *)
Definition set_ownerFundsLeftover (m : gmap string Amount.t) (this : Engine)
  : Engine :=
  {| _currencyGets := _currencyGets this; _currencyPays := _currencyPays this;
     _issuerGets := _issuerGets this; _issuerPays := _issuerPays this;
     legOneOffers := legOneOffers this; legTwoOffers := legTwoOffers this;
     _ownerFundsLeftover := m |}.

(** Lines 20-28: the constructor.  It takes four arguments and assigns
    neither [_issuerGets] nor [_issuerPays], which therefore read
    [undefined] on the constructed object.  [_.cloneDeep] copies values, which
    is the identity on immutable lists. *)
Definition AutobridgeCalculator (currencyGets currencyPays : Currency.t)
    (legOneOffers legTwoOffers : list Offer) : Engine :=
  {| _currencyGets := currencyGets; _currencyPays := currencyPays;
     _issuerGets := None; _issuerPays := None;
     legOneOffers := legOneOffers; legTwoOffers := legTwoOffers;
     _ownerFundsLeftover := ∅ |}.

(** *** The ledger of leftover owner funds *)

(** Lines 198-200. *)
Definition clearOwnerFundsLeftover (this : Engine) : Engine :=
  set_ownerFundsLeftover ∅ this.

(** Lines 210-216. *)
Definition resetOwnerFundsLeftover (this : Engine) (account : string)
  : option Engine :=
  assert (UInt160.is_valid account);;
  Some (set_ownerFundsLeftover
          (<[account := Utils.normalizeAmount_0]> (_ownerFundsLeftover this))
          this).

(** Lines 226-236. *)
Definition getLeftoverOwnerFunds (this : Engine) (account : string)
  : option Amount.t :=
  assert (UInt160.is_valid account);;
  match _ownerFundsLeftover this !! account with
  | Some amount => Some amount
  | None => Some Utils.normalizeAmount_0
  end.

(** Lines 247-256.  [amount instanceof Amount] holds of every [Amount.t]. *)
Definition addLeftoverOwnerFunds (this : Engine) (account : string)
    (amount : Amount.t) : option Engine :=
  assert (UInt160.is_valid account);;
  leftover ← getLeftoverOwnerFunds this account;
  Some (set_ownerFundsLeftover
          (<[account := Amount.add leftover amount]>
             (_ownerFundsLeftover this))
          this).

(** Lines 265-271. *)
Definition setLeftoverOwnerFunds (this : Engine) (account : string)
    (amount : Amount.t) : option Engine :=
  assert (UInt160.is_valid account);;
  Some (set_ownerFundsLeftover
          (<[account := amount]> (_ownerFundsLeftover this)) this).

(** *** The formatter *)

(** Lines 282-312. *)
Definition formatAutobridgedOffer (this : Engine)
    (takerGets takerPays : Amount.t) : Autobridged.t :=
  let quality := Amount.divide takerPays takerGets in
  let TakerGets :=
    {| Autobridged.value := Amount.to_text takerGets;
       Autobridged.currency := Currency.to_hex (_currencyGets this);
       Autobridged.issuer := _issuerGets this |} in
  let TakerPays :=
    {| Autobridged.value := Amount.to_text takerPays;
       Autobridged.currency := Currency.to_hex (_currencyPays this);
       Autobridged.issuer := _issuerPays this |} in
  {| Autobridged.TakerGets := TakerGets;
     Autobridged.TakerPays := TakerPays;
     Autobridged.quality := Amount.to_text quality;
     Autobridged.taker_gets_funded := Autobridged.value TakerGets;
     Autobridged.taker_pays_funded := Autobridged.value TakerPays;
     Autobridged.autobridged := true;
     Autobridged.BookDirectory := Utils.convertOfferQualityToHex quality |}.

(** *** The funding clamp on leg-one offers *)

(** Lines 401-414.  The flag is written only in the branch of the strict
    comparison of the text just stored with [legOneOffer.TakerGets.value]. *)
Definition setLegOneTakerGetsFunded (this : Engine) (legOneOffer : Offer)
    (takerGetsFunded : Amount.t) : option Offer :=
  assertValidLegOneOffer legOneOffer;;
  let legOneOffer :=
    set_taker_gets_funded (Amount.to_text takerGetsFunded) legOneOffer in
  let legOneOffer :=
    set_taker_pays_funded
      (Amount.to_text
         (Amount.multiply takerGetsFunded
            (Utils.getOfferQuality legOneOffer (_currencyGets this))))
      legOneOffer in
  if decide (Some (taker_gets_funded legOneOffer)
             = prop_value (TakerGets legOneOffer))
  then Some (set_is_fully_funded true legOneOffer)
  else Some legOneOffer.

(** Lines 424-433. *)
Definition setLegOneTakerGets (this : Engine) (legOneOffer : Offer)
    (takerGets : Amount.t) : option Offer :=
  assertValidLegOneOffer legOneOffer;;
  let legOneQuality := Utils.getOfferQuality legOneOffer (_currencyGets this) in
  let legOneOffer := set_TakerGets (JsString (Amount.to_text takerGets))
                       legOneOffer in
  Some (set_TakerPays (JsAmount (Amount.multiply takerGets legOneQuality))
          legOneOffer).

(** Lines 323-332. *)
Definition unclampLegOneOwnerFunds (this : Engine) (legOneOffer : Offer)
  : option Offer :=
  assertValidLegOneOffer legOneOffer;;
  let legOneOffer :=
    set_initTakerGetsFunded (Utils.getOfferTakerGetsFunded legOneOffer)
      legOneOffer in
  setLegOneTakerGetsFunded this legOneOffer
    (Utils.getOfferTakerGets legOneOffer).

(** Lines 348-362.  The snapshot is dereferenced ([.subtract]) or handed to
    [compareTo]; when it is [undefined] the call has no amount to work with
    and fails. *)
Definition clampLegOneOwnerFunds (this : Engine) (legOneOffer : Offer)
  : option (Engine * Offer) :=
  assertValidLegOneOffer legOneOffer;;
  let takerGets := Utils.getOfferTakerGets legOneOffer in
  init ← initTakerGetsFunded legOneOffer;
  if 0 <? Amount.compareTo takerGets init then
    legOneOffer ← setLegOneTakerGetsFunded this legOneOffer init;
    Some (this, legOneOffer)
  else
    let updatedLeftover := Amount.subtract init takerGets in
    legOneOffer ← setLegOneTakerGetsFunded this legOneOffer takerGets;
    this ← addLeftoverOwnerFunds this (Account legOneOffer) updatedLeftover;
    Some (this, legOneOffer).

(** Lines 371-391. *)
Definition adjustLegOneFundedAmount (this : Engine) (legOneOffer : Offer)
  : option (Engine * Offer) :=
  assertValidLegOneOffer legOneOffer;;
  assert (negb (is_fully_funded legOneOffer));;
  leftover ← getLeftoverOwnerFunds this (Account legOneOffer);
  let fundedSum :=
    Amount.add (Utils.getOfferTakerGetsFunded legOneOffer) leftover in
  if 0 <=? Amount.compareTo fundedSum (Utils.getOfferTakerGets legOneOffer)
  then
    let legOneTakerGets := Utils.getOfferTakerGets legOneOffer in
    let updatedLeftover := Amount.subtract fundedSum legOneTakerGets in
    legOneOffer ← setLegOneTakerGetsFunded this legOneOffer legOneTakerGets;
    this ← setLeftoverOwnerFunds this (Account legOneOffer) updatedLeftover;
    Some (this, legOneOffer)
  else
    legOneOffer ← setLegOneTakerGetsFunded this legOneOffer fundedSum;
    this ← resetOwnerFundsLeftover this (Account legOneOffer);
    Some (this, legOneOffer).

(** *** The three ways of pairing two offers *)

(** Lines 111-139. *)
Definition getAutobridgedOfferWithClampedLegOne (this : Engine)
    (legOneOffer legTwoOffer : Offer)
  : option (Engine * Offer * Autobridged.t) :=
  let legOneTakerGetsFunded := Utils.getOfferTakerGetsFunded legOneOffer in
  let legTwoTakerPaysFunded := Utils.getOfferTakerPaysFunded legTwoOffer in
  let legOneQuality := Utils.getOfferQuality legOneOffer (_currencyGets this) in
  let autobridgedTakerGets := Utils.getOfferTakerGetsFunded legTwoOffer in
  let autobridgedTakerPays :=
    Amount.multiply legTwoTakerPaysFunded legOneQuality in
  '(this, legOneOffer) ←
    (if decide (Account legOneOffer = Account legTwoOffer) then
       let legOneTakerGets := Utils.getOfferTakerGets legOneOffer in
       let updatedTakerGets :=
         Amount.subtract legOneTakerGets legTwoTakerPaysFunded in
       legOneOffer ← setLegOneTakerGets this legOneOffer updatedTakerGets;
       clampLegOneOwnerFunds this legOneOffer
     else
       let updatedTakerGetsFunded :=
         Amount.subtract legOneTakerGetsFunded legTwoTakerPaysFunded in
       legOneOffer ←
         setLegOneTakerGetsFunded this legOneOffer updatedTakerGetsFunded;
       Some (this, legOneOffer));
  Some (this, legOneOffer,
        formatAutobridgedOffer this autobridgedTakerGets autobridgedTakerPays).

(** Lines 151-172: the second component is the updated leg-two offer. *)
Definition getAutobridgedOfferWithClampedLegTwo (this : Engine)
    (legOneOffer legTwoOffer : Offer) : Offer * Autobridged.t :=
  let legOneTakerGetsFunded := Utils.getOfferTakerGetsFunded legOneOffer in
  let legTwoTakerPaysFunded := Utils.getOfferTakerPaysFunded legTwoOffer in
  let legTwoQuality := Utils.getOfferQuality legTwoOffer (_currencyGets this) in
  let autobridgedTakerGets :=
    Amount.divide legOneTakerGetsFunded legTwoQuality in
  let autobridgedTakerPays := Utils.getOfferTakerPaysFunded legOneOffer in
  let legTwoOffer' :=
    set_taker_gets_funded
      (Amount.to_text
         (Amount.subtract (Utils.getOfferTakerGetsFunded legTwoOffer)
            autobridgedTakerGets))
      legTwoOffer in
  let legTwoOffer' :=
    set_taker_pays_funded
      (Amount.to_text
         (Amount.subtract legTwoTakerPaysFunded legOneTakerGetsFunded))
      legTwoOffer' in
  (legTwoOffer',
   formatAutobridgedOffer this autobridgedTakerGets autobridgedTakerPays).

(** Lines 183-192. *)
Definition getAutobridgedOfferWithoutClamps (this : Engine)
    (legOneOffer legTwoOffer : Offer) : Autobridged.t :=
  let autobridgedTakerGets := Utils.getOfferTakerGetsFunded legTwoOffer in
  let autobridgedTakerPays := Utils.getOfferTakerPaysFunded legOneOffer in
  formatAutobridgedOffer this autobridgedTakerGets autobridgedTakerPays.

(** *** The merge driver *)

(** The calculator together with the local variables of [calculate]. *)
Record LoopState := {
  engine : Engine;
  legOnePointer : nat;
  legTwoPointer : nat;
  offersAutobridged : list Autobridged.t
}.

(** Line 44, the loop condition: both pointers reference an offer. *)
Definition current (s : LoopState) : option (Offer * Offer) :=
  legOneOffer ← legOneOffers (engine s) !! legOnePointer s;
  legTwoOffer ← legTwoOffers (engine s) !! legTwoPointer s;
  Some (legOneOffer, legTwoOffer).

(** [legOneOffer] and [legTwoOffer] are references to the array elements at
    the two pointers; the methods above return the mutated objects, and
    [store] puts them where the references point.  The elements of the two
    arrays are distinct objects (each array is a deep copy of ledger data),
    so no other element changes. *)
Definition store (s : LoopState) (this : Engine)
    (legOneOffer legTwoOffer : Offer) : Engine :=
  {| _currencyGets := _currencyGets this; _currencyPays := _currencyPays this;
     _issuerGets := _issuerGets this; _issuerPays := _issuerPays this;
     legOneOffers := <[legOnePointer s := legOneOffer]> (legOneOffers this);
     legTwoOffers := <[legTwoPointer s := legTwoOffer]> (legTwoOffers this);
     _ownerFundsLeftover := _ownerFundsLeftover this |}.

(** Lines 47-54: the funding of the leg-one offer before it is paired. *)
Definition fundLegOne (this : Engine) (legOneOffer legTwoOffer : Offer)
  : option (Engine * Offer) :=
  leftoverFunds ← getLeftoverOwnerFunds this (Account legOneOffer);
  if decide (Account legOneOffer = Account legTwoOffer) then
    legOneOffer ← unclampLegOneOwnerFunds this legOneOffer;
    Some (this, legOneOffer)
  else if negb (is_fully_funded legOneOffer)
          && negb (Amount.is_zero leftoverFunds) then
    adjustLegOneFundedAmount this legOneOffer
  else Some (this, legOneOffer).

(** Lines 45-95: one pass of the loop body on the two current offers. *)
Definition iteration (s : LoopState) (legOneOffer legTwoOffer : Offer)
  : option LoopState :=
  '(this, legOneOffer) ← fundLegOne (engine s) legOneOffer legTwoOffer;
  let legOneTakerGetsFunded := Utils.getOfferTakerGetsFunded legOneOffer in
  let legTwoTakerPaysFunded := Utils.getOfferTakerPaysFunded legTwoOffer in
  if Amount.is_zero legOneTakerGetsFunded then
    Some {| engine := store s this legOneOffer legTwoOffer;
            legOnePointer := S (legOnePointer s);
            legTwoPointer := legTwoPointer s;
            offersAutobridged := offersAutobridged s |}
  else if Amount.is_zero legTwoTakerPaysFunded then
    Some {| engine := store s this legOneOffer legTwoOffer;
            legOnePointer := legOnePointer s;
            legTwoPointer := S (legTwoPointer s);
            offersAutobridged := offersAutobridged s |}
  else if 0 <? Amount.compareTo legOneTakerGetsFunded legTwoTakerPaysFunded
  then
    '(this, legOneOffer, autobridgedOffer) ←
      getAutobridgedOfferWithClampedLegOne this legOneOffer legTwoOffer;
    Some {| engine := store s this legOneOffer legTwoOffer;
            legOnePointer := legOnePointer s;
            legTwoPointer := S (legTwoPointer s);
            offersAutobridged := offersAutobridged s ++ [autobridgedOffer] |}
  else if 0 <? Amount.compareTo legTwoTakerPaysFunded legOneTakerGetsFunded
  then
    let '(legTwoOffer, autobridgedOffer) :=
      getAutobridgedOfferWithClampedLegTwo this legOneOffer legTwoOffer in
    Some {| engine := store s this legOneOffer legTwoOffer;
            legOnePointer := S (legOnePointer s);
            legTwoPointer := legTwoPointer s;
            offersAutobridged := offersAutobridged s ++ [autobridgedOffer] |}
  else
    let autobridgedOffer :=
      getAutobridgedOfferWithoutClamps this legOneOffer legTwoOffer in
    Some {| engine := store s this legOneOffer legTwoOffer;
            legOnePointer := S (legOnePointer s);
            legTwoPointer := S (legTwoPointer s);
            offersAutobridged := offersAutobridged s ++ [autobridgedOffer] |}.

(** How a run of the loop ends: the loop condition failed ([Returned]), an
    assertion threw ([Threw]), or the bound on the number of passes was
    reached with both pointers still on an offer ([OutOfFuel]). *)
Inductive Completion :=
| Returned (s : LoopState)
| Threw
| OutOfFuel.

(** Lines 44-96, with a bound on the number of passes. *)
Fixpoint loop (fuel : nat) (s : LoopState) : Completion :=
  match current s with
  | None => Returned s
  | Some (legOneOffer, legTwoOffer) =>
      match fuel with
      | 0%nat => OutOfFuel
      | S fuel =>
          match iteration s legOneOffer legTwoOffer with
          | None => Threw
          | Some s => loop fuel s
          end
      end
  end.

(** Lines 37-42: the state in which the loop is entered. *)
Definition enter (this : Engine) : LoopState :=
  {| engine := clearOwnerFundsLeftover this;
     legOnePointer := 0%nat;
     legTwoPointer := 0%nat;
     offersAutobridged := [] |}.

(** Lines 36-99.  The bound is the sum of the lengths of the two arrays; no
    run reaches it, since every pass moves a pointer forward. *)
Definition calculate (this : Engine) : Completion :=
  loop (length (legOneOffers this) + length (legTwoOffers this)) (enter this).

(** The state in which a completed call leaves the loop. *)
Definition finalState (c : Completion) : option LoopState :=
  match c with
  | Returned s => Some s
  | Threw | OutOfFuel => None
  end.

(** The array that a completed call returns. *)
Definition returned (c : Completion) : option (list Autobridged.t) :=
  match c with
  | Returned s => Some (offersAutobridged s)
  | Threw | OutOfFuel => None
  end.

(** *** Vocabulary of the statements *)

(** The shape that [assertValidLegOneOffer] accepts. *)
Definition validLegOneOffer (legOneOffer : Offer) : bool :=
  typeof_object (TakerPays legOneOffer) && negb (isNaN (TakerGets legOneOffer)).

(** The value that [getLeftoverOwnerFunds] finds for an account, without the
    check of the account. *)
Definition leftoverOf (this : Engine) (account : string) : Amount.t :=
  default Utils.normalizeAmount_0 (_ownerFundsLeftover this !! account).

(** An amount is not negative. *)
Definition nonNegative (a : Amount.t) : Prop :=
  0 ≤ Amount.compareTo a Amount.zero.

(** No entry of the ledger is negative. *)
Definition ledgerNonNegative (this : Engine) : Prop :=
  ∀ account, nonNegative (leftoverOf this account).

(** What the methods leave untouched on the calculator: its configuration
    and its two arrays (whose elements change through [store] only). *)
Definition sameConfig (this this' : Engine) : Prop :=
  _currencyGets this' = _currencyGets this ∧
  _currencyPays this' = _currencyPays this ∧
  _issuerGets this' = _issuerGets this ∧
  _issuerPays this' = _issuerPays this ∧
  legOneOffers this' = legOneOffers this ∧
  legTwoOffers this' = legTwoOffers this.

(** The mixed shape that [setLegOneTakerGets] leaves: a text [TakerGets]
    next to an [Amount] instance as [TakerPays]. *)
Definition mixedShape (offer : Offer) : Prop :=
  typeof_string (TakerGets offer) = true ∧
  instanceof_Amount (TakerPays offer) = true.

(** What the methods leave untouched on a leg-one offer: owner and quality;
    the accepted shape and the mixed shape, once there, stay. *)
Definition sameOffer (o o' : Offer) : Prop :=
  Account o' = Account o ∧
  quality o' = quality o ∧
  (validLegOneOffer o = true → validLegOneOffer o' = true) ∧
  (mixedShape o → mixedShape o').

(** The offers that the two pointers have not passed yet. *)
Definition remaining (s : LoopState) : nat :=
  (length (legOneOffers (engine s)) - legOnePointer s)
  + (length (legTwoOffers (engine s)) - legTwoPointer s).

(** The input contract on the leg-one array: every offer has the accepted
    shape and a valid owner. *)
Definition validLegOne (this : Engine) : Prop :=
  Forall (λ o, validLegOneOffer o = true ∧ UInt160.is_valid (Account o) = true)
    (legOneOffers this).

(** One pass of the loop leads from [s] to [s']. *)
Definition pass (s s' : LoopState) : Prop :=
  ∃ legOneOffer legTwoOffer,
    current s = Some (legOneOffer, legTwoOffer) ∧
    iteration s legOneOffer legTwoOffer = Some s'.

(** The states of the loop that a run from [s0] goes through. *)
Inductive reaches (s0 : LoopState) : LoopState → Prop :=
| reaches_refl : reaches s0 s0
| reaches_pass s s' : reaches s0 s → pass s s' → reaches s0 s'.

End AutobridgeCalculator.
(** Exact rationals in canonical form: the text of an amount is identified
    with the value it denotes. *)
Module QcAmount.

Definition compareTo (a b : Qc) : Z :=
  match (a ?= b)%Qc with Lt => -1 | Eq => 0 | Gt => 1 end.

Definition is_zero (a : Qc) : bool := bool_decide (a = Q2Qc 0).

#[export] Instance ops : Amount.Ops := {|
  Amount.t := Qc;
  Amount.text := Qc;
  Amount.text_eq_dec := Qc_eq_dec;
  Amount.add := Qcplus;
  Amount.subtract := Qcminus;
  Amount.multiply := Qcmult;
  Amount.divide := Qcdiv;
  Amount.compareTo := compareTo;
  Amount.is_zero := is_zero;
  Amount.to_text := λ a, a;
  Amount.from_json := λ s, s;
  Amount.zero := Q2Qc 0
|}.

End QcAmount.

(** ** A concrete setting for runs on explicit inputs *)

Module Concrete.

Import QcAmount.

(** Currencies are their own hex form. *)
#[export] Instance currency : Currency.Ops := {|
  Currency.t := string;
  Currency.to_hex := λ c, c
|}.

(** Every account identifier but the empty string passes the format check. *)
#[export] Instance uint160 : UInt160.Ops := {|
  UInt160.is_valid := λ account, negb (String.eqb account EmptyString)
|}.

(** The sort key is not looked at; every quality gets the same key. *)
#[export] Instance encoder : Utils.Encoder := {|
  Utils.convertOfferQualityToHex := λ _, "00"%string
|}.

(** The amount [n / d]. *)
Definition amt (n : Z) (d : positive) : Qc := Q2Qc (n # d).

(** A leg-one offer: native (bridge) [TakerGets], [TakerPays] in the input
    currency. *)
Definition legOne (account : string) (takerGets takerPays funded : Qc)
    (fully : bool) : Offer :=
  {| Account := account; BookDirectory := "book";
     TakerGets := JsString takerGets;
     TakerPays := JsObject takerPays "IN" "issuerIn";
     quality := (takerPays / takerGets)%Qc;
     taker_gets_funded := funded;
     taker_pays_funded := (funded * (takerPays / takerGets))%Qc;
     is_fully_funded := fully;
     initTakerGetsFunded := None |}.

(** A leg-two offer: [TakerGets] in the output currency, native (bridge)
    [TakerPays]; [funded] is the funded part of [TakerGets]. *)
Definition legTwo (account : string) (takerGets takerPays funded : Qc)
    (fully : bool) : Offer :=
  {| Account := account; BookDirectory := "book";
     TakerGets := JsObject takerGets "OUT" "issuerOut";
     TakerPays := JsString takerPays;
     quality := (takerPays / takerGets)%Qc;
     taker_gets_funded := funded;
     taker_pays_funded := (funded * (takerPays / takerGets))%Qc;
     is_fully_funded := fully;
     initTakerGetsFunded := None |}.

(** The spec's equal-case scenario. *)
Definition equal_L1 : Offer := legOne "A" (amt 100 1) (amt 50 1) (amt 100 1) true.
Definition equal_L2 : Offer := legTwo "B" (amt 40 1) (amt 100 1) (amt 40 1) true.
Definition equal_engine : Engine :=
  AutobridgeCalculator "OUT" "IN" [equal_L1] [equal_L2].

(** The spec's leg-one-surplus scenario. *)
Definition surplus_L1 : Offer := legOne "A" (amt 100 1) (amt 50 1) (amt 100 1) true.
Definition surplus_L2 : Offer := legTwo "B" (amt 20 1) (amt 40 1) (amt 20 1) true.
Definition surplus_engine : Engine :=
  AutobridgeCalculator "OUT" "IN" [surplus_L1] [surplus_L2].

(** Leg two needs more than leg one offers: [g1 = 40 < p2 = 100]. *)
Definition short_L1 : Offer := legOne "A" (amt 40 1) (amt 20 1) (amt 40 1) true.
Definition short_L2 : Offer := legTwo "B" (amt 40 1) (amt 100 1) (amt 40 1) true.
Definition short_engine : Engine :=
  AutobridgeCalculator "OUT" "IN" [short_L1] [short_L2].

(** One owner on both legs; the leg-one offer is funded for 80 of its 100. *)
Definition owner_L1 : Offer := legOne "A" (amt 100 1) (amt 50 1) (amt 80 1) false.
Definition owner_L2 : Offer := legTwo "A" (amt 20 1) (amt 40 1) (amt 20 1) true.
Definition owner_engine : Engine :=
  AutobridgeCalculator "OUT" "IN" [owner_L1] [owner_L2].

(** The same owner again, with a leg-two offer that is not funded at all. *)
Definition unfunded_L2 : Offer := legTwo "A" (amt 20 1) (amt 40 1) (amt 0 1) false.
Definition unfunded_engine : Engine :=
  AutobridgeCalculator "OUT" "IN" [owner_L1] [unfunded_L2].

(** Two owners, neither offer funded: [g1 = p2 = 0]. *)
Definition empty_L1 : Offer := legOne "A" (amt 100 1) (amt 50 1) (amt 0 1) false.
Definition empty_L2 : Offer := legTwo "B" (amt 40 1) (amt 100 1) (amt 0 1) false.
Definition empty_engine : Engine :=
  AutobridgeCalculator "OUT" "IN" [empty_L1] [empty_L2].

(** A leg-one offer after a same-owner reduction to 20, with the snapshot 30
    of its funding. *)
Definition reduced_L1 : Offer :=
  set_initTakerGetsFunded (amt 30 1)
    (legOne "A" (amt 20 1) (amt 10 1) (amt 20 1) false).

(** A leg-one offer funded for 30 of its 100, whose owner has 50 left over. *)
Definition under_L1 : Offer := legOne "A" (amt 100 1) (amt 50 1) (amt 30 1) false.
Definition under_engine : Engine :=
  set_ownerFundsLeftover {[ "A"%string := amt 50 1 ]}
    (AutobridgeCalculator "OUT" "IN" [under_L1] []).

End Concrete.

(** ** Further vocabulary *)

Module AmountArith.

(** Modelled from the spec: one more consequence of the exactness of the
    [Amount] arithmetic of ./amount, that adding back what was subtracted
    gives the amount one started from. *)
Class Laws (O : Amount.Ops) : Prop := {
  add_subtract : ∀ a b : Amount.t, Amount.add a (Amount.subtract b a) = b
}.

End AmountArith.

Section Frames.
Context `{O : Amount.Ops}.

(** What identifies an offer: its owner, its book directory and its
    quality. *)
Definition sameIdentity (o o' : Offer) : Prop :=
  Account o' = Account o ∧
  BookDirectory o' = BookDirectory o ∧
  quality o' = quality o.

(** Two offers that differ in their funded texts at most. *)
Definition sameButFunded (o o' : Offer) : Prop :=
  Account o' = Account o ∧
  BookDirectory o' = BookDirectory o ∧
  TakerGets o' = TakerGets o ∧
  TakerPays o' = TakerPays o ∧
  quality o' = quality o ∧
  is_fully_funded o' = is_fully_funded o ∧
  initTakerGetsFunded o' = initTakerGetsFunded o.

End Frames.

(** ** Inputs outside the contract, and other explicit inputs *)

Module Faulty.

Import QcAmount Concrete.

(** A leg-one offer whose [TakerGets] is an amount object: it fails
    [assertValidLegOneOffer]. *)
Definition malformed_L1 : Offer :=
  set_TakerGets (JsObject (amt 100 1) "BRIDGE" "issuerBridge") surplus_L1.

(** A leg-one offer whose owner fails the format check. *)
Definition nobody_L1 : Offer :=
  legOne EmptyString (amt 100 1) (amt 50 1) (amt 100 1) true.

(** No leg-one offer at all, against a leg-two array. *)
Definition no_leg_one_engine : Engine :=
  AutobridgeCalculator "OUT" "IN" [] [surplus_L2].

(** A malformed leg-one offer of the owner of the leg-two offer. *)
Definition malformed_owner_L1 : Offer :=
  set_TakerGets (JsObject (amt 100 1) "BRIDGE" "issuerBridge") owner_L1.
Definition malformed_engine : Engine :=
  AutobridgeCalculator "OUT" "IN" [malformed_owner_L1] [owner_L2].

(** Two leg-one offers of one owner against two leg-two offers: the first
    pair has one owner, the second leg-one offer is under-funded. *)
Definition chain_L1a : Offer := legOne "A" (amt 100 1) (amt 50 1) (amt 80 1) false.
Definition chain_L1b : Offer := legOne "A" (amt 50 1) (amt 30 1) (amt 10 1) false.
Definition chain_L2a : Offer := legTwo "A" (amt 35 1) (amt 70 1) (amt 35 1) true.
Definition chain_L2b : Offer := legTwo "B" (amt 10 1) (amt 20 1) (amt 10 1) true.
Definition chain_engine : Engine :=
  AutobridgeCalculator "OUT" "IN" [chain_L1a; chain_L1b] [chain_L2a; chain_L2b].

End Faulty.

(** * Properties *)

(** ** Exact rationals satisfy the laws *)

Lemma QcAmount_compareTo_nonneg (a b : Qc) :
  0 ≤ QcAmount.compareTo a b ↔ (b <= a)%Qc.
Proof.
  unfold QcAmount.compareTo, Qcle, Qccompare, Qle.
  rewrite Z.le_lteq, Z.lt_eq_cases.
  destruct (a ?= b)%Q eqn:E.
  - apply Qeq_alt in E. unfold Qeq in E. lia.
  - apply Qlt_alt in E. unfold Qlt in E. lia.
  - apply Qgt_alt in E. unfold Qlt in E. lia.
Qed.

#[export] Instance QcAmount_laws : Amount.Laws QcAmount.ops.
Proof.
  split; simpl.
  - done.
  - intros a b. unfold QcAmount.compareTo. rewrite (Qceq_alt a b).
    destruct (a ?= b)%Qc; split; intros; congruence || lia.
  - intros a b. unfold QcAmount.compareTo, Qccompare.
    rewrite <- (Qcompare_antisym a b).
    destruct (a ?= b)%Q; simpl; lia.
  - intros a. unfold QcAmount.is_zero. by rewrite bool_decide_eq_true.
  - intros a. ring.
  - intros a. ring.
  - intros a b. rewrite !QcAmount_compareTo_nonneg. intros H.
    change (Q2Qc 0) with 0%Qc.
    apply (Qcplus_le_compat _ _ (- b)%Qc (- b)%Qc) in H; [| apply Qcle_refl].
    by replace (b + - b)%Qc with 0%Qc in H by ring.
  - intros a b. rewrite !QcAmount_compareTo_nonneg. intros Ha Hb.
    change (Q2Qc 0) with 0%Qc in *.
    replace 0%Qc with (0 + 0)%Qc by ring. by apply Qcplus_le_compat.
Qed.

(** ** The engine *)

Section Proofs.
Context `{O : Amount.Ops} `{L : !Amount.Laws O} `{C : Currency.Ops}
  `{U : UInt160.Ops} `{E : !Utils.Encoder}.

Implicit Types (this : Engine) (o legOneOffer legTwoOffer : Offer).
Implicit Types (s : LoopState) (a : Amount.t) (account : string).

(** *** Assertions *)

Lemma assert_Some (b : bool) : assert b = Some () ↔ b = true.
Proof. destruct b; simpl; split; congruence. Qed.

Lemma assertValidLegOneOffer_Some o :
  assertValidLegOneOffer o = Some () ↔ validLegOneOffer o = true.
Proof.
  unfold assertValidLegOneOffer, assertValidNumber, validLegOneOffer.
  destruct (typeof_object (TakerPays o)), (isNaN (TakerGets o)); simpl;
    split; congruence.
Qed.

Lemma valid_TakerGets o :
  validLegOneOffer o = true → ∃ t, TakerGets o = JsString t.
Proof.
  unfold validLegOneOffer. intros H%andb_prop. destruct H as [_ H].
  destruct (TakerGets o); simpl in H; try discriminate. eauto.
Qed.

Lemma valid_no_value o :
  validLegOneOffer o = true → prop_value (TakerGets o) = None.
Proof. intros [t Ht]%valid_TakerGets. by rewrite Ht. Qed.

(** *** [setLegOneTakerGetsFunded] and [setLegOneTakerGets] *)

(** On an offer of the accepted shape the strict comparison is with
    [undefined], so the call stores the two funded texts and nothing else. *)
Lemma setLegOneTakerGetsFunded_valid this o a :
  validLegOneOffer o = true →
  setLegOneTakerGetsFunded this o a
  = Some (set_taker_pays_funded
            (Amount.to_text
               (Amount.multiply a (Utils.getOfferQuality o (_currencyGets this))))
            (set_taker_gets_funded (Amount.to_text a) o)).
Proof.
  intros Hv. unfold setLegOneTakerGetsFunded.
  rewrite (proj2 (assertValidLegOneOffer_Some o) Hv). simpl.
  rewrite (valid_no_value o Hv). by case_decide.
Qed.

Lemma setLegOneTakerGetsFunded_invalid this o a :
  validLegOneOffer o = false → setLegOneTakerGetsFunded this o a = None.
Proof.
  intros Hv. unfold setLegOneTakerGetsFunded.
  destruct (assertValidLegOneOffer o) as [[]|] eqn:Ha; [|done].
  apply assertValidLegOneOffer_Some in Ha. congruence.
Qed.

Lemma setLegOneTakerGets_valid this o a :
  validLegOneOffer o = true →
  setLegOneTakerGets this o a
  = Some (set_TakerPays
            (JsAmount
               (Amount.multiply a (Utils.getOfferQuality o (_currencyGets this))))
            (set_TakerGets (JsString (Amount.to_text a)) o)).
Proof.
  intros Hv. unfold setLegOneTakerGets.
  by rewrite (proj2 (assertValidLegOneOffer_Some o) Hv).
Qed.

(** *** The ledger *)

Lemma getLeftoverOwnerFunds_valid this account :
  UInt160.is_valid account = true →
  getLeftoverOwnerFunds this account = Some (leftoverOf this account).
Proof.
  intros Hv. unfold getLeftoverOwnerFunds, leftoverOf. rewrite Hv. simpl.
  by destruct (_ownerFundsLeftover this !! account).
Qed.

Lemma getLeftoverOwnerFunds_Some this account a :
  getLeftoverOwnerFunds this account = Some a →
  UInt160.is_valid account = true ∧ a = leftoverOf this account.
Proof.
  unfold getLeftoverOwnerFunds, leftoverOf.
  destruct (UInt160.is_valid account); simpl; [|done].
  destruct (_ownerFundsLeftover this !! account); simpl; naive_solver.
Qed.

Lemma leftoverOf_insert this account account' a :
  leftoverOf (set_ownerFundsLeftover
                (<[account := a]> (_ownerFundsLeftover this)) this) account'
  = if decide (account = account') then a else leftoverOf this account'.
Proof.
  unfold leftoverOf. simpl. rewrite lookup_insert. by case_decide.
Qed.

Lemma nonNegative_zero : nonNegative Amount.zero.
Proof.
  unfold nonNegative.
  by rewrite (proj2 (Amount.compareTo_eq Amount.zero Amount.zero) eq_refl).
Qed.

Lemma nonNegative_flip a b :
  ¬ 0 < Amount.compareTo a b → 0 ≤ Amount.compareTo b a.
Proof. rewrite (Amount.compareTo_antisym a b). lia. Qed.

(** *** Unclamp, clamp, top-up *)

Lemma unclampLegOneOwnerFunds_valid this o :
  validLegOneOffer o = true →
  unclampLegOneOwnerFunds this o
  = Some (set_taker_pays_funded
            (Amount.to_text
               (Amount.multiply (Utils.getOfferTakerGets o)
                  (Utils.getOfferQuality o (_currencyGets this))))
            (set_taker_gets_funded (Amount.to_text (Utils.getOfferTakerGets o))
               (set_initTakerGetsFunded (Utils.getOfferTakerGetsFunded o) o))).
Proof.
  intros Hv. unfold unclampLegOneOwnerFunds.
  rewrite (proj2 (assertValidLegOneOffer_Some o) Hv). simpl.
  by rewrite setLegOneTakerGetsFunded_valid.
Qed.

Lemma addLeftoverOwnerFunds_valid this account a :
  UInt160.is_valid account = true →
  addLeftoverOwnerFunds this account a
  = Some (set_ownerFundsLeftover
            (<[account := Amount.add (leftoverOf this account) a]>
               (_ownerFundsLeftover this)) this).
Proof.
  intros Hv. unfold addLeftoverOwnerFunds.
  rewrite getLeftoverOwnerFunds_valid by done. by rewrite Hv.
Qed.

(** The two branches of [clampLegOneOwnerFunds]. *)
Lemma clampLegOneOwnerFunds_gt this o init :
  validLegOneOffer o = true →
  initTakerGetsFunded o = Some init →
  0 < Amount.compareTo (Utils.getOfferTakerGets o) init →
  clampLegOneOwnerFunds this o
  = Some (this,
          set_taker_pays_funded
            (Amount.to_text
               (Amount.multiply init
                  (Utils.getOfferQuality o (_currencyGets this))))
            (set_taker_gets_funded (Amount.to_text init) o)).
Proof.
  intros Hv Hi Hc. unfold clampLegOneOwnerFunds.
  rewrite (proj2 (assertValidLegOneOffer_Some o) Hv), Hi. simpl.
  rewrite (proj2 (Z.ltb_lt _ _) Hc).
  by rewrite setLegOneTakerGetsFunded_valid.
Qed.

Lemma clampLegOneOwnerFunds_le this o init :
  validLegOneOffer o = true →
  UInt160.is_valid (Account o) = true →
  initTakerGetsFunded o = Some init →
  ¬ 0 < Amount.compareTo (Utils.getOfferTakerGets o) init →
  clampLegOneOwnerFunds this o
  = Some (set_ownerFundsLeftover
            (<[Account o :=
                 Amount.add (leftoverOf this (Account o))
                   (Amount.subtract init (Utils.getOfferTakerGets o))]>
               (_ownerFundsLeftover this)) this,
          set_taker_pays_funded
            (Amount.to_text
               (Amount.multiply (Utils.getOfferTakerGets o)
                  (Utils.getOfferQuality o (_currencyGets this))))
            (set_taker_gets_funded (Amount.to_text (Utils.getOfferTakerGets o))
               o)).
Proof.
  intros Hv Ha Hi Hc. unfold clampLegOneOwnerFunds.
  rewrite (proj2 (assertValidLegOneOffer_Some o) Hv), Hi. simpl.
  rewrite (proj2 (Z.ltb_nlt _ _) Hc).
  rewrite setLegOneTakerGetsFunded_valid by done. simpl.
  by rewrite addLeftoverOwnerFunds_valid.
Qed.

(** The two branches of [adjustLegOneFundedAmount]. *)
Lemma adjustLegOneFundedAmount_ge this o :
  validLegOneOffer o = true →
  is_fully_funded o = false →
  UInt160.is_valid (Account o) = true →
  0 ≤ Amount.compareTo
        (Amount.add (Utils.getOfferTakerGetsFunded o)
           (leftoverOf this (Account o)))
        (Utils.getOfferTakerGets o) →
  adjustLegOneFundedAmount this o
  = Some (set_ownerFundsLeftover
            (<[Account o :=
                 Amount.subtract
                   (Amount.add (Utils.getOfferTakerGetsFunded o)
                      (leftoverOf this (Account o)))
                   (Utils.getOfferTakerGets o)]>
               (_ownerFundsLeftover this)) this,
          set_taker_pays_funded
            (Amount.to_text
               (Amount.multiply (Utils.getOfferTakerGets o)
                  (Utils.getOfferQuality o (_currencyGets this))))
            (set_taker_gets_funded (Amount.to_text (Utils.getOfferTakerGets o))
               o)).
Proof.
  intros Hv Hf Ha Hc. unfold adjustLegOneFundedAmount.
  rewrite (proj2 (assertValidLegOneOffer_Some o) Hv), Hf. simpl.
  rewrite getLeftoverOwnerFunds_valid by done. simpl.
  rewrite (proj2 (Z.leb_le _ _) Hc).
  rewrite setLegOneTakerGetsFunded_valid by done. simpl.
  unfold setLeftoverOwnerFunds. by rewrite Ha.
Qed.

Lemma adjustLegOneFundedAmount_lt this o :
  validLegOneOffer o = true →
  is_fully_funded o = false →
  UInt160.is_valid (Account o) = true →
  Amount.compareTo
    (Amount.add (Utils.getOfferTakerGetsFunded o) (leftoverOf this (Account o)))
    (Utils.getOfferTakerGets o) < 0 →
  adjustLegOneFundedAmount this o
  = Some (set_ownerFundsLeftover
            (<[Account o := Amount.zero]> (_ownerFundsLeftover this)) this,
          set_taker_pays_funded
            (Amount.to_text
               (Amount.multiply
                  (Amount.add (Utils.getOfferTakerGetsFunded o)
                     (leftoverOf this (Account o)))
                  (Utils.getOfferQuality o (_currencyGets this))))
            (set_taker_gets_funded
               (Amount.to_text
                  (Amount.add (Utils.getOfferTakerGetsFunded o)
                     (leftoverOf this (Account o))))
               o)).
Proof.
  intros Hv Hf Ha Hc. unfold adjustLegOneFundedAmount.
  rewrite (proj2 (assertValidLegOneOffer_Some o) Hv), Hf. simpl.
  rewrite getLeftoverOwnerFunds_valid by done. simpl.
  rewrite (proj2 (Z.leb_gt _ _) Hc).
  rewrite setLegOneTakerGetsFunded_valid by done. simpl.
  unfold resetOwnerFundsLeftover. by rewrite Ha.
Qed.

(** C5.  Clamp-reconcile on a leg-one offer that carries the snapshot [init]
    taken at unclamp: when the nominal takerGets is at least [init], the
    funded text is that of [init] and the owner's leftover reads as before;
    otherwise the funded text is that of the nominal takerGets and the
    owner's leftover has grown by exactly [init] minus the nominal
    takerGets. *)
Theorem clamp_reconcile this o init :
  validLegOneOffer o = true →
  UInt160.is_valid (Account o) = true →
  initTakerGetsFunded o = Some init →
  let nominal := Utils.getOfferTakerGets o in
  ∃ this' o',
    clampLegOneOwnerFunds this o = Some (this', o') ∧
    (0 ≤ Amount.compareTo nominal init →
       taker_gets_funded o' = Amount.to_text init ∧
       getLeftoverOwnerFunds this' (Account o)
       = getLeftoverOwnerFunds this (Account o)) ∧
    (Amount.compareTo nominal init < 0 →
       taker_gets_funded o' = Amount.to_text nominal ∧
       ∀ leftover,
         getLeftoverOwnerFunds this (Account o) = Some leftover →
         getLeftoverOwnerFunds this' (Account o)
         = Some (Amount.add leftover (Amount.subtract init nominal))).
Proof.
  intros Hv Ha Hi nominal.
  destruct (decide (0 < Amount.compareTo nominal init)) as [Hgt|Hle].
  - eexists _, _. split; [by apply clampLegOneOwnerFunds_gt|].
    split; [done | lia].
  - eexists _, _. split; [by apply clampLegOneOwnerFunds_le|].
    rewrite !getLeftoverOwnerFunds_valid by done.
    rewrite leftoverOf_insert, decide_True by done. simpl.
    split.
    + intros Hge. subst nominal.
      assert (Utils.getOfferTakerGets o = init) as Heq.
      { apply Amount.compareTo_eq. lia. }
      by rewrite Heq, Amount.subtract_diag, Amount.add_zero_r.
    + intros _. split; [done|]. intros leftover [= <-]. done.
Qed.

(** C6.  Top-up of a leg-one offer that is not fully funded, with [sum] the
    funded amount plus the owner's leftover: when [sum] reaches the nominal
    takerGets, the funded text is that of the nominal takerGets and the
    owner's leftover becomes [sum] minus the nominal takerGets; otherwise the
    funded text is that of [sum] and the owner's leftover becomes zero. *)
Theorem top_up this o leftover :
  validLegOneOffer o = true →
  is_fully_funded o = false →
  getLeftoverOwnerFunds this (Account o) = Some leftover →
  let sum := Amount.add (Utils.getOfferTakerGetsFunded o) leftover in
  let nominal := Utils.getOfferTakerGets o in
  ∃ this' o',
    adjustLegOneFundedAmount this o = Some (this', o') ∧
    (0 ≤ Amount.compareTo sum nominal →
       taker_gets_funded o' = Amount.to_text nominal ∧
       getLeftoverOwnerFunds this' (Account o)
       = Some (Amount.subtract sum nominal)) ∧
    (Amount.compareTo sum nominal < 0 →
       taker_gets_funded o' = Amount.to_text sum ∧
       getLeftoverOwnerFunds this' (Account o) = Some Amount.zero).
Proof.
  intros Hv Hf [Ha ->]%getLeftoverOwnerFunds_Some. cbv zeta.
  destruct (decide (0 ≤ Amount.compareTo
                          (Amount.add (Utils.getOfferTakerGetsFunded o)
                             (leftoverOf this (Account o)))
                          (Utils.getOfferTakerGets o))) as [Hge|Hlt].
  - eexists _, _. split; [by apply adjustLegOneFundedAmount_ge|].
    rewrite getLeftoverOwnerFunds_valid by done.
    rewrite leftoverOf_insert, decide_True by done.
    split; [done | lia].
  - eexists _, _. split; [apply adjustLegOneFundedAmount_lt; (done || lia)|].
    rewrite getLeftoverOwnerFunds_valid by done.
    rewrite leftoverOf_insert, decide_True by done.
    split; [lia | done].
Qed.

(** *** What the methods leave untouched *)

Lemma assertValidLegOneOffer_None o :
  validLegOneOffer o = false → assertValidLegOneOffer o = None.
Proof.
  intros Hv. destruct (assertValidLegOneOffer o) as [[]|] eqn:Ha; [|done].
  apply assertValidLegOneOffer_Some in Ha. congruence.
Qed.

Lemma sameConfig_refl this : sameConfig this this.
Proof. by repeat split. Qed.

Lemma sameConfig_trans this1 this2 this3 :
  sameConfig this1 this2 → sameConfig this2 this3 → sameConfig this1 this3.
Proof. unfold sameConfig. intuition congruence. Qed.

Lemma sameConfig_ledger this m :
  sameConfig this (set_ownerFundsLeftover m this).
Proof. by repeat split. Qed.

Lemma sameOffer_refl o : sameOffer o o.
Proof. unfold sameOffer. tauto. Qed.

Lemma sameOffer_trans o1 o2 o3 :
  sameOffer o1 o2 → sameOffer o2 o3 → sameOffer o1 o3.
Proof. unfold sameOffer. intuition congruence. Qed.

Lemma sameOffer_funded o (x y : Amount.text) :
  sameOffer o (set_taker_pays_funded x (set_taker_gets_funded y o)).
Proof. unfold sameOffer, validLegOneOffer, mixedShape. simpl. tauto. Qed.

Lemma sameOffer_init o a : sameOffer o (set_initTakerGetsFunded a o).
Proof. unfold sameOffer, validLegOneOffer, mixedShape. simpl. tauto. Qed.

Lemma sameOffer_nominal o (t : Amount.text) a :
  sameOffer o (set_TakerPays (JsAmount a) (set_TakerGets (JsString t) o)).
Proof.
  unfold sameOffer, validLegOneOffer, mixedShape. simpl. tauto.
Qed.

Lemma mixedShape_nominal o (t : Amount.text) a :
  mixedShape (set_TakerPays (JsAmount a) (set_TakerGets (JsString t) o)).
Proof. by split. Qed.

Lemma ledgerNonNegative_same this this' :
  ledgerNonNegative this →
  _ownerFundsLeftover this' = _ownerFundsLeftover this →
  ledgerNonNegative this'.
Proof. intros Hl Heq account. unfold leftoverOf. rewrite Heq. apply Hl. Qed.

Lemma ledgerNonNegative_write this this' account a :
  ledgerNonNegative this → nonNegative a →
  _ownerFundsLeftover this' = <[account := a]> (_ownerFundsLeftover this) →
  ledgerNonNegative this'.
Proof.
  intros Hl Ha Heq account'. unfold leftoverOf. rewrite Heq, lookup_insert.
  case_decide; [done | apply Hl].
Qed.

Lemma ledgerNonNegative_clear this :
  ledgerNonNegative (clearOwnerFundsLeftover this).
Proof.
  intros account. unfold leftoverOf. simpl. rewrite lookup_empty. simpl.
  apply nonNegative_zero.
Qed.

(** *** What a successful call tells about its arguments *)

Lemma getLeftoverOwnerFunds_None this account :
  UInt160.is_valid account = false → getLeftoverOwnerFunds this account = None.
Proof. intros Ha. unfold getLeftoverOwnerFunds. by rewrite Ha. Qed.

Lemma setLegOneTakerGets_Some this o a o' :
  setLegOneTakerGets this o a = Some o' → validLegOneOffer o = true.
Proof.
  unfold setLegOneTakerGets. destruct (validLegOneOffer o) eqn:Hv; [done|].
  by rewrite assertValidLegOneOffer_None.
Qed.

Lemma unclampLegOneOwnerFunds_Some this o o' :
  unclampLegOneOwnerFunds this o = Some o' → validLegOneOffer o = true.
Proof.
  unfold unclampLegOneOwnerFunds. destruct (validLegOneOffer o) eqn:Hv; [done|].
  by rewrite assertValidLegOneOffer_None.
Qed.

Lemma adjustLegOneFundedAmount_Some this o r :
  adjustLegOneFundedAmount this o = Some r →
  validLegOneOffer o = true ∧ is_fully_funded o = false ∧
  UInt160.is_valid (Account o) = true.
Proof.
  unfold adjustLegOneFundedAmount. intros H.
  destruct (validLegOneOffer o) eqn:Hv;
    [| by rewrite assertValidLegOneOffer_None in H].
  rewrite (proj2 (assertValidLegOneOffer_Some o) Hv) in H. simpl in H.
  destruct (is_fully_funded o); [done|]. simpl in H.
  destruct (UInt160.is_valid (Account o)) eqn:Ha; [done|].
  by rewrite getLeftoverOwnerFunds_None in H.
Qed.

Lemma clampLegOneOwnerFunds_Some this o r :
  clampLegOneOwnerFunds this o = Some r →
  validLegOneOffer o = true ∧
  ∃ init, initTakerGetsFunded o = Some init ∧
    (0 < Amount.compareTo (Utils.getOfferTakerGets o) init ∨
     (¬ 0 < Amount.compareTo (Utils.getOfferTakerGets o) init ∧
      UInt160.is_valid (Account o) = true)).
Proof.
  unfold clampLegOneOwnerFunds. intros H.
  destruct (validLegOneOffer o) eqn:Hv;
    [| by rewrite assertValidLegOneOffer_None in H].
  split; [done|].
  rewrite (proj2 (assertValidLegOneOffer_Some o) Hv) in H. simpl in H.
  destruct (initTakerGetsFunded o) as [init|]; [|done]. simpl in H.
  exists init. split; [done|].
  destruct (Z.ltb_spec 0 (Amount.compareTo (Utils.getOfferTakerGets o) init))
    as [Hc|Hc]; [by left|right].
  split; [lia|].
  rewrite setLegOneTakerGetsFunded_valid in H by done. simpl in H.
  destruct (UInt160.is_valid (Account o)) eqn:Ha; [done|].
  unfold addLeftoverOwnerFunds in H. by rewrite Ha in H.
Qed.

(** *** Postconditions of the funding methods *)

Lemma unclampLegOneOwnerFunds_post this o o' :
  unclampLegOneOwnerFunds this o = Some o' →
  sameOffer o o' ∧ validLegOneOffer o' = true ∧
  initTakerGetsFunded o' = Some (Utils.getOfferTakerGetsFunded o) ∧
  TakerGets o' = TakerGets o ∧ TakerPays o' = TakerPays o.
Proof.
  intros H. pose proof (unclampLegOneOwnerFunds_Some _ _ _ H) as Hv.
  rewrite unclampLegOneOwnerFunds_valid in H by done.
  injection H as <-.
  split; [|done].
  eapply sameOffer_trans; [apply sameOffer_init | apply sameOffer_funded].
Qed.

Lemma adjustLegOneFundedAmount_post this o this' o' :
  adjustLegOneFundedAmount this o = Some (this', o') →
  sameConfig this this' ∧ sameOffer o o' ∧
  TakerGets o' = TakerGets o ∧ TakerPays o' = TakerPays o.
Proof.
  intros H.
  destruct (adjustLegOneFundedAmount_Some _ _ _ H) as (Hv & Hf & Ha).
  destruct (decide (0 ≤ Amount.compareTo
                          (Amount.add (Utils.getOfferTakerGetsFunded o)
                             (leftoverOf this (Account o)))
                          (Utils.getOfferTakerGets o))) as [Hge|Hlt].
  - rewrite adjustLegOneFundedAmount_ge in H by done.
    injection H as <- <-.
    split; [apply sameConfig_ledger|]. split; [apply sameOffer_funded|].
    done.
  - rewrite adjustLegOneFundedAmount_lt in H by (done || lia).
    injection H as <- <-.
    split; [apply sameConfig_ledger|]. split; [apply sameOffer_funded|].
    done.
Qed.

Lemma clampLegOneOwnerFunds_post this o this' o' :
  clampLegOneOwnerFunds this o = Some (this', o') →
  sameConfig this this' ∧ sameOffer o o' ∧
  TakerGets o' = TakerGets o ∧ TakerPays o' = TakerPays o.
Proof.
  intros H.
  destruct (clampLegOneOwnerFunds_Some _ _ _ H)
    as (Hv & init & Hi & [Hgt|[Hle Ha]]).
  - rewrite (clampLegOneOwnerFunds_gt _ _ init) in H by done.
    injection H as <- <-.
    split; [apply sameConfig_refl|]. split; [apply sameOffer_funded|]. done.
  - rewrite (clampLegOneOwnerFunds_le _ _ init) in H by done.
    injection H as <- <-.
    split; [apply sameConfig_ledger|]. split; [apply sameOffer_funded|].
    done.
Qed.

(** *** The funding step of a pass *)

Lemma fundLegOne_same this o1 o2 :
  Account o1 = Account o2 →
  UInt160.is_valid (Account o1) = true →
  validLegOneOffer o1 = true →
  fundLegOne this o1 o2
  = Some (this,
          set_taker_pays_funded
            (Amount.to_text
               (Amount.multiply (Utils.getOfferTakerGets o1)
                  (Utils.getOfferQuality o1 (_currencyGets this))))
            (set_taker_gets_funded
               (Amount.to_text (Utils.getOfferTakerGets o1))
               (set_initTakerGetsFunded (Utils.getOfferTakerGetsFunded o1)
                  o1))).
Proof.
  intros Hs Ha Hv. unfold fundLegOne.
  rewrite getLeftoverOwnerFunds_valid by done. simpl.
  rewrite decide_True by done.
  by rewrite unclampLegOneOwnerFunds_valid.
Qed.

Lemma fundLegOne_valid this o1 o2 :
  UInt160.is_valid (Account o1) = true →
  validLegOneOffer o1 = true →
  ∃ this' o1', fundLegOne this o1 o2 = Some (this', o1').
Proof.
  intros Ha Hv.
  destruct (decide (Account o1 = Account o2)) as [Hs|Hd].
  { eexists _, _. by apply fundLegOne_same. }
  unfold fundLegOne. rewrite getLeftoverOwnerFunds_valid by done. simpl.
  rewrite decide_False by done.
  destruct (is_fully_funded o1) eqn:Hf; simpl; [by eexists _, _|].
  destruct (Amount.is_zero (leftoverOf this (Account o1))); simpl;
    [by eexists _, _|].
  destruct (decide (0 ≤ Amount.compareTo
                          (Amount.add (Utils.getOfferTakerGetsFunded o1)
                             (leftoverOf this (Account o1)))
                          (Utils.getOfferTakerGets o1))) as [Hge|Hlt].
  - eexists _, _. by apply adjustLegOneFundedAmount_ge.
  - eexists _, _. apply adjustLegOneFundedAmount_lt; (done || lia).
Qed.

Lemma fundLegOne_post this o1 o2 this' o1' :
  fundLegOne this o1 o2 = Some (this', o1') →
  sameConfig this this' ∧ sameOffer o1 o1' ∧
  UInt160.is_valid (Account o1) = true ∧
  TakerGets o1' = TakerGets o1 ∧ TakerPays o1' = TakerPays o1 ∧
  (Account o1 = Account o2 →
   validLegOneOffer o1 = true ∧ this' = this ∧
   initTakerGetsFunded o1' = Some (Utils.getOfferTakerGetsFunded o1)).
Proof.
  unfold fundLegOne. intros H.
  destruct (UInt160.is_valid (Account o1)) eqn:Ha;
    [| by rewrite getLeftoverOwnerFunds_None in H].
  rewrite getLeftoverOwnerFunds_valid in H by done. simpl in H.
  destruct (decide (Account o1 = Account o2)) as [Hs|Hd].
  - destruct (unclampLegOneOwnerFunds this o1) as [o|] eqn:Hu; [|done].
    simpl in H. injection H as <- <-.
    pose proof (unclampLegOneOwnerFunds_Some _ _ _ Hu) as Hv.
    destruct (unclampLegOneOwnerFunds_post _ _ _ Hu) as (? & ? & ? & ? & ?).
    split; [apply sameConfig_refl|]. done.
  - destruct (negb (is_fully_funded o1)
              && negb (Amount.is_zero (leftoverOf this (Account o1)))).
    + destruct (adjustLegOneFundedAmount_post _ _ _ _ H) as (? & ? & ? & ?).
      done.
    + injection H as <- <-.
      split; [apply sameConfig_refl|]. split; [apply sameOffer_refl|]. done.
Qed.

(** *** Pairing with leg one clamped *)

Lemma clampedLegOne_different this o1 o2 :
  Account o1 ≠ Account o2 →
  validLegOneOffer o1 = true →
  getAutobridgedOfferWithClampedLegOne this o1 o2
  = Some (this,
          set_taker_pays_funded
            (Amount.to_text
               (Amount.multiply
                  (Amount.subtract (Utils.getOfferTakerGetsFunded o1)
                     (Utils.getOfferTakerPaysFunded o2))
                  (Utils.getOfferQuality o1 (_currencyGets this))))
            (set_taker_gets_funded
               (Amount.to_text
                  (Amount.subtract (Utils.getOfferTakerGetsFunded o1)
                     (Utils.getOfferTakerPaysFunded o2)))
               o1),
          formatAutobridgedOffer this (Utils.getOfferTakerGetsFunded o2)
            (Amount.multiply (Utils.getOfferTakerPaysFunded o2)
               (Utils.getOfferQuality o1 (_currencyGets this)))).
Proof.
  intros Hd Hv. unfold getAutobridgedOfferWithClampedLegOne.
  rewrite decide_False by done.
  by rewrite setLegOneTakerGetsFunded_valid.
Qed.

(** With one owner the nominal amounts are reduced first and the clamp is
    reapplied to the reduced offer. *)
Lemma clampedLegOne_same this o1 o2 :
  Account o1 = Account o2 →
  validLegOneOffer o1 = true →
  getAutobridgedOfferWithClampedLegOne this o1 o2
  = '(this', o1') ←
      clampLegOneOwnerFunds this
        (set_TakerPays
           (JsAmount
              (Amount.multiply
                 (Amount.subtract (Utils.getOfferTakerGets o1)
                    (Utils.getOfferTakerPaysFunded o2))
                 (Utils.getOfferQuality o1 (_currencyGets this))))
           (set_TakerGets
              (JsString
                 (Amount.to_text
                    (Amount.subtract (Utils.getOfferTakerGets o1)
                       (Utils.getOfferTakerPaysFunded o2))))
              o1));
    Some (this', o1',
          formatAutobridgedOffer this' (Utils.getOfferTakerGetsFunded o2)
            (Amount.multiply (Utils.getOfferTakerPaysFunded o2)
               (Utils.getOfferQuality o1 (_currencyGets this)))).
Proof.
  intros Hs Hv. unfold getAutobridgedOfferWithClampedLegOne.
  rewrite decide_True by done.
  by rewrite setLegOneTakerGets_valid.
Qed.

Lemma clampedLegOne_Some this o1 o2 r :
  getAutobridgedOfferWithClampedLegOne this o1 o2 = Some r →
  validLegOneOffer o1 = true.
Proof.
  unfold getAutobridgedOfferWithClampedLegOne. intros H.
  destruct (validLegOneOffer o1) eqn:Hv; [done|].
  destruct (decide (Account o1 = Account o2)).
  - unfold setLegOneTakerGets in H.
    by rewrite assertValidLegOneOffer_None in H.
  - by rewrite setLegOneTakerGetsFunded_invalid in H.
Qed.

Lemma clampedLegOne_post this o1 o2 this' o1' ab :
  getAutobridgedOfferWithClampedLegOne this o1 o2 = Some (this', o1', ab) →
  sameConfig this this' ∧ sameOffer o1 o1' ∧
  ab = formatAutobridgedOffer this' (Utils.getOfferTakerGetsFunded o2)
         (Amount.multiply (Utils.getOfferTakerPaysFunded o2)
            (Utils.getOfferQuality o1 (_currencyGets this))).
Proof.
  intros H. pose proof (clampedLegOne_Some _ _ _ _ H) as Hv.
  destruct (decide (Account o1 = Account o2)) as [Hs|Hd].
  - rewrite clampedLegOne_same in H by done.
    match type of H with
    | context [clampLegOneOwnerFunds ?t ?o] =>
        destruct (clampLegOneOwnerFunds t o) as [[this2 o2']|] eqn:Hc; [|done]
    end.
    simpl in H. injection H as <- <- <-.
    destruct (clampLegOneOwnerFunds_post _ _ _ _ Hc) as (? & ? & _).
    split; [done|]. split; [|done].
    eapply sameOffer_trans; [apply sameOffer_nominal | done].
  - rewrite clampedLegOne_different in H by done.
    injection H as <- <- <-.
    split; [apply sameConfig_refl|]. split; [apply sameOffer_funded|]. done.
Qed.

Lemma clampedLegOne_valid this o1 o2 :
  validLegOneOffer o1 = true →
  UInt160.is_valid (Account o1) = true →
  (Account o1 = Account o2 → is_Some (initTakerGetsFunded o1)) →
  ∃ r, getAutobridgedOfferWithClampedLegOne this o1 o2 = Some r.
Proof.
  intros Hv Ha Hi.
  destruct (decide (Account o1 = Account o2)) as [Hs|Hd].
  - rewrite clampedLegOne_same by done.
    destruct (Hi Hs) as [init Hinit].
    match goal with
    | |- context [clampLegOneOwnerFunds ?t ?o] =>
        destruct (decide (0 < Amount.compareTo (Utils.getOfferTakerGets o) init))
    end.
    + erewrite clampLegOneOwnerFunds_gt by done. simpl. eauto.
    + erewrite clampLegOneOwnerFunds_le by done. simpl. eauto.
  - rewrite clampedLegOne_different by done. eauto.
Qed.

(** *** One pass of the loop *)

Lemma current_Some s o1 o2 :
  current s = Some (o1, o2) ↔
  legOneOffers (engine s) !! legOnePointer s = Some o1 ∧
  legTwoOffers (engine s) !! legTwoPointer s = Some o2.
Proof.
  unfold current.
  destruct (legOneOffers (engine s) !! legOnePointer s); simpl;
    [|split; [done | intros [? _]; done]].
  destruct (legTwoOffers (engine s) !! legTwoPointer s); simpl.
  - split; [intros [= -> ->]; done | intros [[= ->] [= ->]]; done].
  - split; [done | intros [_ ?]; done].
Qed.

Lemma current_None s :
  current s = None ↔
  (length (legOneOffers (engine s)) ≤ legOnePointer s)%nat ∨
  (length (legTwoOffers (engine s)) ≤ legTwoPointer s)%nat.
Proof.
  unfold current. rewrite <- !lookup_ge_None.
  destruct (legOneOffers (engine s) !! legOnePointer s); simpl;
    [|by split; [left|]].
  destruct (legTwoOffers (engine s) !! legTwoPointer s); simpl.
  - split; [done | intros [?|?]; done].
  - by split; [right|].
Qed.

(** The five ways through the loop body. *)
Lemma iteration_inv s o1 o2 s' :
  iteration s o1 o2 = Some s' →
  ∃ this1 o1a,
    fundLegOne (engine s) o1 o2 = Some (this1, o1a) ∧
    ((Amount.is_zero (Utils.getOfferTakerGetsFunded o1a) = true ∧
      s' = {| engine := store s this1 o1a o2;
              legOnePointer := S (legOnePointer s);
              legTwoPointer := legTwoPointer s;
              offersAutobridged := offersAutobridged s |}) ∨
     (Amount.is_zero (Utils.getOfferTakerPaysFunded o2) = true ∧
      s' = {| engine := store s this1 o1a o2;
              legOnePointer := legOnePointer s;
              legTwoPointer := S (legTwoPointer s);
              offersAutobridged := offersAutobridged s |}) ∨
     (∃ this2 o1b ab,
        getAutobridgedOfferWithClampedLegOne this1 o1a o2
        = Some (this2, o1b, ab) ∧
        s' = {| engine := store s this2 o1b o2;
                legOnePointer := legOnePointer s;
                legTwoPointer := S (legTwoPointer s);
                offersAutobridged := offersAutobridged s ++ [ab] |}) ∨
     (s' = {| engine :=
                store s this1 o1a
                  (getAutobridgedOfferWithClampedLegTwo this1 o1a o2).1;
              legOnePointer := S (legOnePointer s);
              legTwoPointer := legTwoPointer s;
              offersAutobridged :=
                offersAutobridged s
                ++ [(getAutobridgedOfferWithClampedLegTwo this1 o1a o2).2] |}) ∨
     (s' = {| engine := store s this1 o1a o2;
              legOnePointer := S (legOnePointer s);
              legTwoPointer := S (legTwoPointer s);
              offersAutobridged :=
                offersAutobridged s
                ++ [getAutobridgedOfferWithoutClamps this1 o1a o2] |})).
Proof.
  unfold iteration. intros H.
  destruct (fundLegOne (engine s) o1 o2) as [[this1 o1a]|]; [|done].
  simpl in H. exists this1, o1a. split; [done|].
  destruct (Amount.is_zero (Utils.getOfferTakerGetsFunded o1a)).
  { left. by injection H as <-. }
  destruct (Amount.is_zero (Utils.getOfferTakerPaysFunded o2)).
  { right; left. by injection H as <-. }
  destruct (0 <? Amount.compareTo _ _).
  { right; right; left.
    destruct (getAutobridgedOfferWithClampedLegOne this1 o1a o2)
      as [[[this2 o1b] ab]|]; [|done].
    simpl in H. injection H as <-. by eexists _, _, _. }
  destruct (0 <? Amount.compareTo _ _).
  { right; right; right; left.
    injection H as <-. reflexivity. }
  right; right; right; right. by injection H as <-.
Qed.

(** What one pass does to the state of the loop. *)
Lemma iteration_post s o1 o2 s' :
  iteration s o1 o2 = Some s' →
  ∃ this' o1' o2',
    engine s' = store s this' o1' o2' ∧
    sameConfig (engine s) this' ∧
    sameOffer o1 o1' ∧
    UInt160.is_valid (Account o1) = true ∧
    ((legOnePointer s' = S (legOnePointer s) ∧
      legTwoPointer s' = legTwoPointer s) ∨
     (legOnePointer s' = legOnePointer s ∧
      legTwoPointer s' = S (legTwoPointer s)) ∨
     (legOnePointer s' = S (legOnePointer s) ∧
      legTwoPointer s' = S (legTwoPointer s))) ∧
    (offersAutobridged s' = offersAutobridged s ∨
     ∃ x y,
       offersAutobridged s'
       = offersAutobridged s ++ [formatAutobridgedOffer this' x y]).
Proof.
  intros (this1 & o1a & Hf & Hcases)%iteration_inv.
  destruct (fundLegOne_post _ _ _ _ _ Hf) as (Hc & Ho & Ha & _).
  destruct Hcases as [[_ ->]|[[_ ->]|[(this2 & o1b & ab & Hp & ->)|[->| ->]]]];
    simpl.
  - exists this1, o1a, o2. naive_solver.
  - exists this1, o1a, o2. naive_solver.
  - destruct (clampedLegOne_post _ _ _ _ _ _ Hp) as (Hc2 & Ho2 & ->).
    exists this2, o1b, o2.
    split; [done|]. split; [by eapply sameConfig_trans|].
    split; [by eapply sameOffer_trans|]. split; [done|].
    split; [tauto|]. right. by eexists _, _.
  - eexists this1, o1a, _.
    split; [reflexivity|]. do 3 (split; [done|]). split; [tauto|].
    right. by eexists _, _.
  - exists this1, o1a, o2.
    do 4 (split; [done|]). split; [tauto|]. right. by eexists _, _.
Qed.

Lemma current_bounds s o1 o2 :
  current s = Some (o1, o2) →
  (legOnePointer s < length (legOneOffers (engine s)))%nat ∧
  (legTwoPointer s < length (legTwoOffers (engine s)))%nat.
Proof.
  intros [H1 H2]%current_Some.
  split; by eapply lookup_lt_Some.
Qed.

Lemma quality_sameOffer o o' (c c' : Currency.t) :
  sameOffer o o' → Utils.getOfferQuality o' c' = Utils.getOfferQuality o c.
Proof. intros (_ & Hq & _). unfold Utils.getOfferQuality. by rewrite Hq. Qed.

(** C1.  A pass on two live offers of different owners in which leg one's
    funded bridge output [g1] and leg two's funded bridge input [p2] are both
    nonzero and [g1 > p2]: the pass emits an offer whose takerGets is leg
    two's funded takerGets and whose takerPays is [p2] times leg one's
    quality, leaves leg one's funded takerGets at [g1 - p2] with the leg-one
    pointer where it was, and advances the leg-two pointer by one. *)
Theorem clamped_leg_one_different_owners s L1 L2 :
  current s = Some (L1, L2) →
  Account L1 ≠ Account L2 →
  UInt160.is_valid (Account L1) = true →
  validLegOneOffer L1 = true →
  ∃ this' L1',
    fundLegOne (engine s) L1 L2 = Some (this', L1') ∧
    let g1 := Utils.getOfferTakerGetsFunded L1' in
    let p2 := Utils.getOfferTakerPaysFunded L2 in
    Amount.is_zero g1 = false →
    Amount.is_zero p2 = false →
    0 < Amount.compareTo g1 p2 →
    ∃ s' ab L1'',
      iteration s L1 L2 = Some s' ∧
      offersAutobridged s' = offersAutobridged s ++ [ab] ∧
      Autobridged.value (Autobridged.TakerGets ab)
      = Amount.to_text (Utils.getOfferTakerGetsFunded L2) ∧
      Autobridged.value (Autobridged.TakerPays ab)
      = Amount.to_text
          (Amount.multiply p2
             (Utils.getOfferQuality L1 (_currencyGets (engine s)))) ∧
      legOneOffers (engine s') !! legOnePointer s' = Some L1'' ∧
      taker_gets_funded L1'' = Amount.to_text (Amount.subtract g1 p2) ∧
      Utils.getOfferTakerGetsFunded L1'' = Amount.subtract g1 p2 ∧
      legOnePointer s' = legOnePointer s ∧
      legTwoPointer s' = S (legTwoPointer s).
Proof.
  intros Hcur Hd Ha Hv.
  destruct (fundLegOne_valid (engine s) L1 L2 Ha Hv) as (this1 & o1a & Hf).
  exists this1, o1a. split; [done|]. intros g1 p2 Hz1 Hz2 Hgt.
  destruct (fundLegOne_post _ _ _ _ _ Hf) as (Hc & Ho & _).
  pose proof Ho as (Hacc & Hq & Hv' & _).
  unfold iteration. rewrite Hf. simpl.
  fold g1 p2. rewrite Hz1, Hz2, (proj2 (Z.ltb_lt _ _) Hgt).
  rewrite clampedLegOne_different by (rewrite ?Hacc; auto). simpl.
  eexists _, _, _. split; [reflexivity|]. simpl.
  split; [done|]. split; [done|].
  split.
  { by rewrite (quality_sameOffer L1 o1a (_currencyGets (engine s))
                  (_currencyGets this1) Ho). }
  split.
  { apply list_lookup_insert_eq.
    destruct Hc as (_ & _ & _ & _ & -> & _).
    by apply (current_bounds _ _ _ Hcur). }
  split; [done|]. split; [|done].
  unfold Utils.getOfferTakerGetsFunded at 1. simpl.
  by rewrite Amount.from_json_to_text.
Qed.

(** C2.  A pass on two live offers in which [g1] and [p2] are both nonzero
    and [p2 > g1]: the pass emits an offer whose takerGets is [g1] divided by
    leg two's quality and whose takerPays is leg one's funded takerPays,
    reduces leg two's funded takerGets by the emitted takerGets and its
    funded takerPays by [g1] with the leg-two pointer where it was, and
    advances the leg-one pointer by one. *)
Theorem clamped_leg_two s L1 L2 :
  current s = Some (L1, L2) →
  UInt160.is_valid (Account L1) = true →
  validLegOneOffer L1 = true →
  ∃ this' L1',
    fundLegOne (engine s) L1 L2 = Some (this', L1') ∧
    let g1 := Utils.getOfferTakerGetsFunded L1' in
    let p2 := Utils.getOfferTakerPaysFunded L2 in
    Amount.is_zero g1 = false →
    Amount.is_zero p2 = false →
    0 < Amount.compareTo p2 g1 →
    ∃ s' ab L2',
      iteration s L1 L2 = Some s' ∧
      offersAutobridged s' = offersAutobridged s ++ [ab] ∧
      let takerGets :=
        Amount.divide g1
          (Utils.getOfferQuality L2 (_currencyGets (engine s))) in
      Autobridged.value (Autobridged.TakerGets ab) = Amount.to_text takerGets ∧
      Autobridged.value (Autobridged.TakerPays ab)
      = Amount.to_text (Utils.getOfferTakerPaysFunded L1') ∧
      legTwoOffers (engine s') !! legTwoPointer s' = Some L2' ∧
      taker_gets_funded L2'
      = Amount.to_text
          (Amount.subtract (Utils.getOfferTakerGetsFunded L2) takerGets) ∧
      taker_pays_funded L2' = Amount.to_text (Amount.subtract p2 g1) ∧
      legOnePointer s' = S (legOnePointer s) ∧
      legTwoPointer s' = legTwoPointer s.
Proof.
  intros Hcur Ha Hv.
  destruct (fundLegOne_valid (engine s) L1 L2 Ha Hv) as (this1 & o1a & Hf).
  exists this1, o1a. split; [done|]. intros g1 p2 Hz1 Hz2 Hgt.
  destruct (fundLegOne_post _ _ _ _ _ Hf) as (Hc & _).
  unfold iteration. rewrite Hf. simpl. fold g1 p2. rewrite Hz1, Hz2.
  assert (¬ 0 < Amount.compareTo g1 p2) as Hle.
  { rewrite (Amount.compareTo_antisym p2 g1). lia. }
  rewrite (proj2 (Z.ltb_nlt _ _) Hle), (proj2 (Z.ltb_lt _ _) Hgt).
  destruct Hc as (Hcg & _ & _ & _ & _ & Hl2).
  eexists _, _, _. split; [reflexivity|]. simpl.
  split; [reflexivity|]. simpl. rewrite Hcg.
  split; [reflexivity|]. split; [reflexivity|].
  split.
  { apply list_lookup_insert_eq. rewrite Hl2.
    by apply (current_bounds _ _ _ Hcur). }
  done.
Qed.

(** *** Who writes the ledger *)

Lemma adjustLegOneFundedAmount_ledger this o this' o' :
  adjustLegOneFundedAmount this o = Some (this', o') →
  ∃ r, nonNegative r ∧
    _ownerFundsLeftover this'
    = <[Account o := r]> (_ownerFundsLeftover this).
Proof.
  intros H.
  destruct (adjustLegOneFundedAmount_Some _ _ _ H) as (Hv & Hf & Ha).
  destruct (decide (0 ≤ Amount.compareTo
                          (Amount.add (Utils.getOfferTakerGetsFunded o)
                             (leftoverOf this (Account o)))
                          (Utils.getOfferTakerGets o))) as [Hge|Hlt].
  - rewrite adjustLegOneFundedAmount_ge in H by done.
    injection H as <- <-. eexists. split; [|reflexivity].
    by apply Amount.subtract_nonneg.
  - rewrite adjustLegOneFundedAmount_lt in H by (done || lia).
    injection H as <- <-. eexists. split; [|reflexivity].
    apply nonNegative_zero.
Qed.

Lemma clampLegOneOwnerFunds_ledger this o this' o' :
  clampLegOneOwnerFunds this o = Some (this', o') →
  _ownerFundsLeftover this' = _ownerFundsLeftover this ∨
  ∃ d, nonNegative d ∧
    _ownerFundsLeftover this'
    = <[Account o := Amount.add (leftoverOf this (Account o)) d]>
        (_ownerFundsLeftover this).
Proof.
  intros H.
  destruct (clampLegOneOwnerFunds_Some _ _ _ H)
    as (Hv & init & Hi & [Hgt|[Hle Ha]]).
  - rewrite (clampLegOneOwnerFunds_gt _ _ init) in H by done.
    injection H as <- <-. by left.
  - rewrite (clampLegOneOwnerFunds_le _ _ init) in H by done.
    injection H as <- <-. right. eexists. split; [|reflexivity].
    apply Amount.subtract_nonneg. by apply nonNegative_flip.
Qed.

Lemma fundLegOne_ledger this o1 o2 this' o1' :
  fundLegOne this o1 o2 = Some (this', o1') →
  _ownerFundsLeftover this' = _ownerFundsLeftover this ∨
  (Account o1 ≠ Account o2 ∧
   ∃ r, nonNegative r ∧
     _ownerFundsLeftover this'
     = <[Account o1 := r]> (_ownerFundsLeftover this)).
Proof.
  intros H. destruct (decide (Account o1 = Account o2)) as [Hs|Hd].
  - left. destruct (fundLegOne_post _ _ _ _ _ H) as (_ & _ & _ & _ & _ & Hp).
    by destruct (Hp Hs) as (_ & -> & _).
  - unfold fundLegOne in H.
    destruct (getLeftoverOwnerFunds this (Account o1)) as [l|]; [|done].
    simpl in H. rewrite decide_False in H by done.
    destruct (negb (is_fully_funded o1) && negb (Amount.is_zero l)).
    + right. split; [done|]. by eapply adjustLegOneFundedAmount_ledger.
    + left. by injection H as <- <-.
Qed.

Lemma clampedLegOne_ledger this o1 o2 this' o1' ab :
  getAutobridgedOfferWithClampedLegOne this o1 o2 = Some (this', o1', ab) →
  _ownerFundsLeftover this' = _ownerFundsLeftover this ∨
  (Account o1 = Account o2 ∧
   ∃ d, nonNegative d ∧
     _ownerFundsLeftover this'
     = <[Account o1 := Amount.add (leftoverOf this (Account o1)) d]>
         (_ownerFundsLeftover this)).
Proof.
  intros H. pose proof (clampedLegOne_Some _ _ _ _ H) as Hv.
  destruct (decide (Account o1 = Account o2)) as [Hs|Hd].
  - rewrite clampedLegOne_same in H by done.
    match type of H with
    | context [clampLegOneOwnerFunds ?t ?o] =>
        destruct (clampLegOneOwnerFunds t o) as [[this2 o2']|] eqn:Hc; [|done]
    end.
    simpl in H. injection H as <- <- <-.
    destruct (clampLegOneOwnerFunds_ledger _ _ _ _ Hc) as [?|?]; [by left|].
    by right.
  - rewrite clampedLegOne_different in H by done.
    injection H as <- <- <-. by left.
Qed.

(** A pass writes the ledger at most once: through the top-up when the
    owners differ, through the clamp when they are the same. *)
Lemma iteration_ledger s o1 o2 s' :
  iteration s o1 o2 = Some s' →
  _ownerFundsLeftover (engine s') = _ownerFundsLeftover (engine s) ∨
  (Account o1 ≠ Account o2 ∧
   ∃ r, nonNegative r ∧
     _ownerFundsLeftover (engine s')
     = <[Account o1 := r]> (_ownerFundsLeftover (engine s))) ∨
  (Account o1 = Account o2 ∧
   ∃ d, nonNegative d ∧
     _ownerFundsLeftover (engine s')
     = <[Account o1 :=
           Amount.add (leftoverOf (engine s) (Account o1)) d]>
         (_ownerFundsLeftover (engine s))).
Proof.
  intros (this1 & o1a & Hf & Hcases)%iteration_inv.
  pose proof (fundLegOne_ledger _ _ _ _ _ Hf) as Hl1.
  destruct (fundLegOne_post _ _ _ _ _ Hf) as (_ & (Hacc & _) & _).
  destruct Hcases as [[_ ->]|[[_ ->]|[(this2 & o1b & ab & Hp & ->)|[->| ->]]]];
    simpl; try tauto.
  destruct (clampedLegOne_ledger _ _ _ _ _ _ Hp) as [Hl2|(Hs & d & Hd & Hl2)].
  { rewrite Hl2. tauto. }
  rewrite Hacc in Hs, Hl2.
  destruct Hl1 as [Hl1|(Hd' & _)]; [|done].
  right; right. split; [done|]. exists d. split; [done|].
  rewrite Hl2. unfold leftoverOf. by rewrite Hl1.
Qed.

(** *** Runs of the loop *)

Lemma pass_ledgerNonNegative s s' :
  pass s s' →
  ledgerNonNegative (engine s) → ledgerNonNegative (engine s').
Proof.
  intros (o1 & o2 & _ & Hit) Hl.
  destruct (iteration_ledger _ _ _ _ Hit)
    as [Heq|[(_ & r & Hr & Heq)|(_ & d & Hd & Heq)]].
  - by eapply ledgerNonNegative_same.
  - by eapply ledgerNonNegative_write.
  - eapply ledgerNonNegative_write; [done | | done].
    apply Amount.add_nonneg; [apply Hl | done].
Qed.

Lemma reaches_ledgerNonNegative s0 s :
  reaches s0 s →
  ledgerNonNegative (engine s0) → ledgerNonNegative (engine s).
Proof.
  induction 1 as [|s s' _ IH Hp]; [done|].
  intros Hl. eapply pass_ledgerNonNegative; eauto.
Qed.

(** C7.  Through a call of [calculate] no entry of the leftover ledger is
    ever negative: every entry reads zero when the ledger has been cleared;
    every state of the loop, and within a pass the calculator after the
    funding step and after the pairing with leg one clamped, has a ledger
    without negative entry; and a pass writes the ledger only by adding a
    non-negative difference (clamp-reconcile, same owner) or by storing a
    non-negative remainder, which may be zero (top-up, different owners). *)
Theorem leftover_never_negative this :
  (∀ account, leftoverOf (engine (enter this)) account = Amount.zero) ∧
  (∀ s, reaches (enter this) s →
     ledgerNonNegative (engine s) ∧
     (∀ L1 L2 this1 L1a,
        current s = Some (L1, L2) →
        fundLegOne (engine s) L1 L2 = Some (this1, L1a) →
        ledgerNonNegative this1 ∧
        ∀ this2 L1b ab,
          getAutobridgedOfferWithClampedLegOne this1 L1a L2
          = Some (this2, L1b, ab) →
          ledgerNonNegative this2) ∧
     (∀ L1 L2 s',
        current s = Some (L1, L2) →
        iteration s L1 L2 = Some s' →
        _ownerFundsLeftover (engine s') = _ownerFundsLeftover (engine s) ∨
        (Account L1 ≠ Account L2 ∧
         ∃ r, nonNegative r ∧
           _ownerFundsLeftover (engine s')
           = <[Account L1 := r]> (_ownerFundsLeftover (engine s))) ∨
        (Account L1 = Account L2 ∧
         ∃ d, nonNegative d ∧
           _ownerFundsLeftover (engine s')
           = <[Account L1 :=
                 Amount.add (leftoverOf (engine s) (Account L1)) d]>
               (_ownerFundsLeftover (engine s))))).
Proof.
  split.
  { intros account. unfold leftoverOf. simpl. by rewrite lookup_empty. }
  intros s Hr.
  assert (ledgerNonNegative (engine s)) as Hl.
  { eapply reaches_ledgerNonNegative; [done|]. apply ledgerNonNegative_clear. }
  split; [done|]. split.
  - intros L1 L2 this1 L1a _ Hf.
    assert (ledgerNonNegative this1) as Hl1.
    { destruct (fundLegOne_ledger _ _ _ _ _ Hf) as [Heq|(_ & r & Hr' & Heq)].
      - by eapply ledgerNonNegative_same.
      - by eapply ledgerNonNegative_write. }
    split; [done|]. intros this2 L1b ab Hp.
    destruct (clampedLegOne_ledger _ _ _ _ _ _ Hp)
      as [Heq|(_ & d & Hd & Heq)].
    + by eapply ledgerNonNegative_same.
    + eapply ledgerNonNegative_write; [done | | done].
      apply Amount.add_nonneg; [apply Hl1 | done].
  - intros L1 L2 s' _ Hit. by apply iteration_ledger.
Qed.

(** *** Termination *)

Lemma iteration_advances s o1 o2 s' :
  current s = Some (o1, o2) →
  iteration s o1 o2 = Some s' →
  (legOnePointer s ≤ legOnePointer s')%nat ∧
  (legTwoPointer s ≤ legTwoPointer s')%nat ∧
  (legOnePointer s + legTwoPointer s
   < legOnePointer s' + legTwoPointer s')%nat ∧
  length (legOneOffers (engine s')) = length (legOneOffers (engine s)) ∧
  length (legTwoOffers (engine s')) = length (legTwoOffers (engine s)) ∧
  (length (offersAutobridged s') ≤ S (length (offersAutobridged s)))%nat.
Proof.
  intros Hcur Hit.
  destruct (iteration_post _ _ _ _ Hit)
    as (this' & o1' & o2' & He & Hc & _ & _ & Hp & Ho).
  destruct Hc as (_ & _ & _ & _ & Hl1 & Hl2).
  rewrite He. simpl. rewrite !length_insert, Hl1, Hl2.
  repeat split; try lia.
  destruct Ho as [->|(x & y & ->)]; [lia|].
  rewrite length_app. simpl. lia.
Qed.

Lemma iteration_remaining s o1 o2 s' :
  current s = Some (o1, o2) →
  iteration s o1 o2 = Some s' →
  (remaining s' < remaining s)%nat ∧
  (length (offersAutobridged s') + remaining s'
   ≤ length (offersAutobridged s) + remaining s)%nat.
Proof.
  intros Hcur Hit.
  destruct (iteration_advances _ _ _ _ Hcur Hit)
    as (H1 & H2 & H3 & Hl1 & Hl2 & Ho).
  destruct (current_bounds _ _ _ Hcur) as [Hb1 Hb2].
  unfold remaining. rewrite Hl1, Hl2. lia.
Qed.

Lemma loop_exhausted fuel s :
  (length (legOneOffers (engine s)) ≤ legOnePointer s)%nat ∨
  (length (legTwoOffers (engine s)) ≤ legTwoPointer s)%nat →
  loop fuel s = Returned s.
Proof.
  intros H%current_None. destruct fuel; simpl; by rewrite H.
Qed.

Lemma remaining_0 s : remaining s = 0%nat → current s = None.
Proof. intros H. apply current_None. unfold remaining in H. lia. Qed.

Lemma loop_total fuel s :
  (remaining s ≤ fuel)%nat → loop fuel s ≠ OutOfFuel.
Proof.
  revert s. induction fuel as [|fuel IH]; intros s Hr; simpl.
  - by rewrite remaining_0 by lia.
  - destruct (current s) as [[o1 o2]|] eqn:Hcur; [|done].
    destruct (iteration s o1 o2) as [s'|] eqn:Hit; [|done].
    apply IH.
    destruct (iteration_remaining _ _ _ _ Hcur Hit). lia.
Qed.

Lemma loop_fuel fuel fuel' s :
  (remaining s ≤ fuel)%nat → (remaining s ≤ fuel')%nat →
  loop fuel s = loop fuel' s.
Proof.
  revert fuel' s. induction fuel as [|fuel IH]; intros fuel' s Hr Hr'.
  - rewrite !loop_exhausted; [done| |];
      apply current_None, remaining_0; lia.
  - destruct fuel' as [|fuel'].
    { rewrite !loop_exhausted; [done| |];
        apply current_None, remaining_0; lia. }
    simpl. destruct (current s) as [[o1 o2]|] eqn:Hcur; [|done].
    destruct (iteration s o1 o2) as [s'|] eqn:Hit; [|done].
    destruct (iteration_remaining _ _ _ _ Hcur Hit).
    apply IH; lia.
Qed.

Lemma loop_Returned fuel s s' :
  loop fuel s = Returned s' →
  reaches s s' ∧ current s' = None ∧
  (length (offersAutobridged s') + remaining s'
   ≤ length (offersAutobridged s) + remaining s)%nat.
Proof.
  revert s. induction fuel as [|fuel IH]; intros s; simpl.
  - destruct (current s) as [[o1 o2]|] eqn:Hcur; [done|].
    intros [= <-]. split; [constructor|]. split; [done|lia].
  - destruct (current s) as [[o1 o2]|] eqn:Hcur.
    + destruct (iteration s o1 o2) as [s1|] eqn:Hit; [|done].
      intros (Hr & Hn & Hlen)%IH.
      destruct (iteration_remaining _ _ _ _ Hcur Hit).
      split; [|split; [done|lia]].
      clear -Hr Hcur Hit. induction Hr as [|s2 s3 _ IHr Hp].
      * eapply reaches_pass; [constructor|]. by exists o1, o2.
      * by eapply reaches_pass.
    + intros [= <-]. split; [constructor|]. split; [done|lia].
Qed.

(** *** Runs on input that meets the contract *)

Lemma iteration_valid s o1 o2 :
  UInt160.is_valid (Account o1) = true →
  validLegOneOffer o1 = true →
  ∃ s', iteration s o1 o2 = Some s'.
Proof.
  intros Ha Hv.
  destruct (fundLegOne_valid (engine s) o1 o2 Ha Hv) as (this1 & o1a & Hf).
  destruct (fundLegOne_post _ _ _ _ _ Hf)
    as (_ & (Hacc & _ & Hv' & _) & _ & _ & _ & Hs).
  unfold iteration. rewrite Hf. simpl.
  destruct (Amount.is_zero _); [eauto|].
  destruct (Amount.is_zero _); [eauto|].
  destruct (0 <? Amount.compareTo _ _).
  - destruct (clampedLegOne_valid this1 o1a o2) as [[[this2 o1b] ab] ->];
      simpl; eauto.
    + by rewrite Hacc.
    + rewrite Hacc. intros (_ & _ & ->)%Hs. eauto.
  - destruct (0 <? Amount.compareTo _ _); eauto.
Qed.

Lemma pass_validLegOne s s' :
  pass s s' → validLegOne (engine s) → validLegOne (engine s').
Proof.
  intros (o1 & o2 & Hcur & Hit) Hv.
  destruct (iteration_post _ _ _ _ Hit)
    as (this' & o1' & o2' & -> & Hc & Ho & _).
  destruct Hc as (_ & _ & _ & _ & Hl1 & _).
  unfold validLegOne. simpl. rewrite Hl1.
  apply Forall_insert; [done|].
  apply current_Some in Hcur as [H1 _].
  destruct (Forall_lookup_1 _ _ _ _ Hv H1) as [Hv1 Ha1].
  destruct Ho as (Hacc & _ & Hv1' & _). rewrite Hacc. auto.
Qed.

Lemma loop_returns fuel s :
  validLegOne (engine s) →
  (remaining s ≤ fuel)%nat →
  ∃ s', loop fuel s = Returned s'.
Proof.
  revert s. induction fuel as [|fuel IH]; intros s Hv Hr.
  - exists s. apply loop_exhausted, current_None, remaining_0. lia.
  - simpl. destruct (current s) as [[o1 o2]|] eqn:Hcur; [|eauto].
    pose proof Hcur as [H1 _]%current_Some.
    destruct (Forall_lookup_1 _ _ _ _ Hv H1) as [Hv1 Ha1].
    destruct (iteration_valid s o1 o2 Ha1 Hv1) as [s1 Hit]. rewrite Hit.
    apply IH.
    + eapply pass_validLegOne; [|done]. by exists o1, o2.
    + destruct (iteration_remaining _ _ _ _ Hcur Hit). lia.
Qed.

(** C8.  [calculate] terminates: its loop never needs more than [n + m]
    passes (the bound is never reached, and any larger bound gives the same
    outcome); a pass never moves a pointer back and advances at least one of
    them; the loop returns what it has emitted as soon as either pointer has
    left its array, whatever is left in the other one; a returned array has
    at most [n + m] elements and is returned with a leg exhausted; and on
    input that meets the contract the call does return an array. *)
Theorem calculate_terminates this :
  let n := length (legOneOffers this) in
  let m := length (legTwoOffers this) in
  calculate this ≠ OutOfFuel ∧
  (∀ fuel, (n + m ≤ fuel)%nat → loop fuel (enter this) = calculate this) ∧
  (∀ s L1 L2 s',
     current s = Some (L1, L2) →
     iteration s L1 L2 = Some s' →
     (legOnePointer s ≤ legOnePointer s')%nat ∧
     (legTwoPointer s ≤ legTwoPointer s')%nat ∧
     (legOnePointer s + legTwoPointer s
      < legOnePointer s' + legTwoPointer s')%nat) ∧
  (∀ fuel s,
     (length (legOneOffers (engine s)) ≤ legOnePointer s)%nat ∨
     (length (legTwoOffers (engine s)) ≤ legTwoPointer s)%nat →
     loop fuel s = Returned s) ∧
  (∀ s,
     calculate this = Returned s →
     (length (offersAutobridged s) ≤ n + m)%nat ∧
     ((length (legOneOffers (engine s)) ≤ legOnePointer s)%nat ∨
      (length (legTwoOffers (engine s)) ≤ legTwoPointer s)%nat)) ∧
  (validLegOne this →
   ∃ offers, returned (calculate this) = Some offers).
Proof.
  intros n m.
  assert (remaining (enter this) = (n + m)%nat) as Hr.
  { unfold remaining. simpl. lia. }
  split; [apply loop_total; lia|].
  split; [intros fuel Hf; apply loop_fuel; lia|].
  split.
  { intros s L1 L2 s' Hcur Hit.
    destruct (iteration_advances _ _ _ _ Hcur Hit) as (? & ? & ? & _). done. }
  split; [apply loop_exhausted|].
  split.
  - intros s (_ & Hn & Hlen)%loop_Returned.
    split; [|by apply current_None].
    rewrite Hr in Hlen. simpl in Hlen. lia.
  - intros Hv. destruct (loop_returns (n + m) (enter this)) as [s' Hs'];
      [done|lia|].
    exists (offersAutobridged s'). unfold calculate. fold n m. by rewrite Hs'.
Qed.

(** *** The pass without clamps *)

(** The general part of C9: a pass on two live offers with [g1 = p2], both
    nonzero. *)
Lemma without_clamps_pass s L1 L2 :
  current s = Some (L1, L2) →
  UInt160.is_valid (Account L1) = true →
  validLegOneOffer L1 = true →
  ∃ this' L1',
    fundLegOne (engine s) L1 L2 = Some (this', L1') ∧
    let g1 := Utils.getOfferTakerGetsFunded L1' in
    let p2 := Utils.getOfferTakerPaysFunded L2 in
    g1 = p2 →
    Amount.is_zero g1 = false →
    ∃ s' ab,
      iteration s L1 L2 = Some s' ∧
      offersAutobridged s' = offersAutobridged s ++ [ab] ∧
      Autobridged.value (Autobridged.TakerGets ab)
      = Amount.to_text (Utils.getOfferTakerGetsFunded L2) ∧
      Autobridged.value (Autobridged.TakerPays ab)
      = Amount.to_text (Utils.getOfferTakerPaysFunded L1') ∧
      legOnePointer s' = S (legOnePointer s) ∧
      legTwoPointer s' = S (legTwoPointer s).
Proof.
  intros Hcur Ha Hv.
  destruct (fundLegOne_valid (engine s) L1 L2 Ha Hv) as (this1 & o1a & Hf).
  exists this1, o1a. split; [done|]. intros g1 p2 Heq Hz. subst g1 p2.
  unfold iteration. rewrite Hf. simpl. rewrite <- Heq, Hz.
  rewrite (proj2 (Amount.compareTo_eq _ _) eq_refl). simpl.
  eexists _, _. split; [reflexivity|]. simpl.
  split; [reflexivity|]. done.
Qed.

(** *** The same-owner reduction *)

Lemma clampLegOneOwnerFunds_valid this o :
  validLegOneOffer o = true →
  UInt160.is_valid (Account o) = true →
  is_Some (initTakerGetsFunded o) →
  ∃ this' o', clampLegOneOwnerFunds this o = Some (this', o').
Proof.
  intros Hv Ha [init Hi].
  destruct (decide (0 < Amount.compareTo (Utils.getOfferTakerGets o) init)).
  - erewrite clampLegOneOwnerFunds_gt by done. eauto.
  - erewrite clampLegOneOwnerFunds_le by done. eauto.
Qed.

Lemma pass_mixedShape s s' k o :
  pass s s' →
  legOneOffers (engine s) !! k = Some o →
  mixedShape o →
  ∃ o', legOneOffers (engine s') !! k = Some o' ∧ mixedShape o'.
Proof.
  intros (o1 & o2 & Hcur & Hit) Hk Hm.
  destruct (iteration_post _ _ _ _ Hit)
    as (this' & o1' & o2' & -> & Hc & Ho & _).
  destruct Hc as (_ & _ & _ & _ & Hl1 & _).
  simpl. rewrite Hl1.
  destruct (decide (k = legOnePointer s)) as [->|Hne].
  - exists o1'. split.
    + apply list_lookup_insert_eq. by eapply lookup_lt_Some.
    + apply current_Some in Hcur as [H1 _].
      assert (o = o1) as -> by congruence.
      destruct Ho as (_ & _ & _ & Hm'). by apply Hm'.
  - exists o. split; [|done]. by rewrite list_lookup_insert_ne.
Qed.

Lemma reaches_mixedShape s s' k o :
  reaches s s' →
  legOneOffers (engine s) !! k = Some o →
  mixedShape o →
  ∃ o', legOneOffers (engine s') !! k = Some o' ∧ mixedShape o'.
Proof.
  induction 1 as [|s1 s2 _ IH Hp]; [eauto|].
  intros Hk Hm. destruct (IH Hk Hm) as (o1 & Hk1 & Hm1).
  by eapply pass_mixedShape.
Qed.

(** C10, amended.  A pass on two live offers of one owner in which [g1] and
    [p2] are both nonzero and [g1 > p2]: the leg-one offer that the pass
    leaves at the (unmoved) leg-one pointer has the text of the reduced
    amount as [TakerGets] and, as [TakerPays], the [Amount] instance of the
    reduced amount times the quality; the offer at that index keeps this
    mixed shape in every later state of the loop. *)
Theorem same_owner_reduction_mixed_shape s L1 L2 :
  current s = Some (L1, L2) →
  Account L1 = Account L2 →
  UInt160.is_valid (Account L1) = true →
  validLegOneOffer L1 = true →
  ∃ this' L1',
    fundLegOne (engine s) L1 L2 = Some (this', L1') ∧
    let g1 := Utils.getOfferTakerGetsFunded L1' in
    let p2 := Utils.getOfferTakerPaysFunded L2 in
    Amount.is_zero g1 = false →
    Amount.is_zero p2 = false →
    0 < Amount.compareTo g1 p2 →
    let reduced := Amount.subtract (Utils.getOfferTakerGets L1) p2 in
    ∃ s' L1'',
      iteration s L1 L2 = Some s' ∧
      legOnePointer s' = legOnePointer s ∧
      legOneOffers (engine s') !! legOnePointer s' = Some L1'' ∧
      TakerGets L1'' = JsString (Amount.to_text reduced) ∧
      TakerPays L1''
      = JsAmount
          (Amount.multiply reduced
             (Utils.getOfferQuality L1 (_currencyGets (engine s)))) ∧
      ∀ s'',
        reaches s' s'' →
        ∃ o, legOneOffers (engine s'') !! legOnePointer s = Some o ∧
             mixedShape o.
Proof.
  intros Hcur Hs Ha Hv.
  eexists _, _. split; [by apply fundLegOne_same|].
  intros g1 p2 Hz1 Hz2 Hgt reduced.
  unfold iteration. rewrite fundLegOne_same by done. simpl.
  fold g1 p2. rewrite Hz1, Hz2, (proj2 (Z.ltb_lt _ _) Hgt).
  rewrite clampedLegOne_same by done.
  match goal with
  | |- context [clampLegOneOwnerFunds ?t ?o] =>
      assert (∃ this2 o1b, clampLegOneOwnerFunds t o = Some (this2, o1b))
        as (this2 & o1b & Hc)
        by (apply clampLegOneOwnerFunds_valid; [done | done | by eexists])
  end.
  rewrite Hc. simpl.
  destruct (clampLegOneOwnerFunds_post _ _ _ _ Hc)
    as ((_ & _ & _ & _ & Hl1 & _) & _ & Hg & Hp).
  assert (legOneOffers (store s this2 o1b L2) !! legOnePointer s = Some o1b)
    as Hlook.
  { simpl. apply list_lookup_insert_eq. rewrite Hl1.
    by apply (current_bounds _ _ _ Hcur). }
  eexists _, o1b. split; [reflexivity|]. simpl.
  split; [done|]. split; [done|]. split; [done|]. split; [done|].
  intros s'' Hr.
  eapply reaches_mixedShape; [done | done |].
  unfold mixedShape. by rewrite Hg, Hp.
Qed.

(** *** Issuers and flags *)

(** The issuers of every emitted offer are whatever the calculator holds as
    [_issuerGets] and [_issuerPays]. *)
Lemma reaches_issuers s0 s :
  reaches s0 s →
  (_issuerGets (engine s) = _issuerGets (engine s0) ∧
   _issuerPays (engine s) = _issuerPays (engine s0)) ∧
  (Forall (λ ab,
             Autobridged.issuer (Autobridged.TakerGets ab)
             = _issuerGets (engine s0) ∧
             Autobridged.issuer (Autobridged.TakerPays ab)
             = _issuerPays (engine s0)) (offersAutobridged s0) →
   Forall (λ ab,
             Autobridged.issuer (Autobridged.TakerGets ab)
             = _issuerGets (engine s0) ∧
             Autobridged.issuer (Autobridged.TakerPays ab)
             = _issuerPays (engine s0)) (offersAutobridged s)).
Proof.
  induction 1 as [|s1 s2 _ [[IHg IHp] IHf] (o1 & o2 & _ & Hit)]; [done|].
  destruct (iteration_post _ _ _ _ Hit)
    as (this' & o1' & o2' & He & Hc & _ & _ & _ & Ho).
  destruct Hc as (_ & _ & Hg & Hp & _).
  rewrite He. simpl. rewrite Hg, Hp. split; [done|]. intros H0.
  destruct Ho as [->|(x & y & ->)]; [auto|].
  apply Forall_app. split; [auto|].
  apply Forall_singleton. simpl. by rewrite Hg, Hp.
Qed.

(** The constructor leaves both issuers undefined, so no emitted offer
    carries an issuer. *)
Lemma calculate_issuers_undefined currencyGets currencyPays legOne legTwo s :
  calculate (AutobridgeCalculator currencyGets currencyPays legOne legTwo)
  = Returned s →
  Forall (λ ab,
            Autobridged.issuer (Autobridged.TakerGets ab) = None ∧
            Autobridged.issuer (Autobridged.TakerPays ab) = None)
    (offersAutobridged s).
Proof.
  intros (Hr & _)%loop_Returned.
  by apply (reaches_issuers _ _ Hr).
Qed.

(** On an offer of the accepted shape [setLegOneTakerGetsFunded] derives the
    funded takerPays from the funded takerGets and the quality, and leaves
    the flag as it finds it. *)
Lemma setLegOneTakerGetsFunded_flag this o a :
  validLegOneOffer o = true →
  ∃ o',
    setLegOneTakerGetsFunded this o a = Some o' ∧
    Utils.getOfferTakerGetsFunded o' = a ∧
    Utils.getOfferTakerPaysFunded o'
    = Amount.multiply a (Utils.getOfferQuality o' (_currencyGets this)) ∧
    is_fully_funded o' = is_fully_funded o.
Proof.
  intros Hv. eexists. split; [by apply setLegOneTakerGetsFunded_valid|].
  unfold Utils.getOfferTakerGetsFunded, Utils.getOfferTakerPaysFunded. simpl.
  by rewrite !Amount.from_json_to_text.
Qed.

End Proofs.


(** ** Further properties of the engine *)

#[export] Instance QcAmount_arith : AmountArith.Laws QcAmount.ops.
Proof. split. intros a b. simpl. ring. Qed.

Section MoreProofs.
Context `{O : Amount.Ops} `{L : !Amount.Laws O} `{A : !AmountArith.Laws O}
  `{C : Currency.Ops} `{U : UInt160.Ops} `{E : !Utils.Encoder}.

Implicit Types (this : Engine) (o legOneOffer legTwoOffer : Offer).
Implicit Types (s : LoopState) (a : Amount.t) (account : string).

(** *** Empty input *)

(** X1.  When either array is empty, [calculate] returns the empty array at
    once: no offer is looked at, so nothing is thrown whatever the other
    array holds, and the calculator is left with its arrays as they were and
    an empty ledger. *)
Theorem calculate_empty_leg this :
  legOneOffers this = [] ∨ legTwoOffers this = [] →
  calculate this = Returned (enter this) ∧
  returned (calculate this) = Some [] ∧
  legOneOffers (engine (enter this)) = legOneOffers this ∧
  legTwoOffers (engine (enter this)) = legTwoOffers this ∧
  _ownerFundsLeftover (engine (enter this)) = ∅.
Proof.
  intros H.
  assert (calculate this = Returned (enter this)) as Hc.
  { apply loop_exhausted. simpl. destruct H as [-> | ->]; simpl; lia. }
  by rewrite Hc.
Qed.

(** *** The ledger *)

(** X2.  On a valid account the ledger behaves as a map with default zero:
    what [setLeftoverOwnerFunds] stores is what [getLeftoverOwnerFunds]
    finds, [resetOwnerFundsLeftover] makes it find zero,
    [addLeftoverOwnerFunds] makes it find the sum of the former value and
    the amount, a cleared ledger reads zero, and none of the three writes
    changes what is found for another account. *)
Theorem ledger_round_trip this account a :
  UInt160.is_valid account = true →
  (∃ this', setLeftoverOwnerFunds this account a = Some this' ∧
     getLeftoverOwnerFunds this' account = Some a ∧
     ∀ account', account' ≠ account →
       leftoverOf this' account' = leftoverOf this account') ∧
  (∃ this', resetOwnerFundsLeftover this account = Some this' ∧
     getLeftoverOwnerFunds this' account = Some Amount.zero ∧
     ∀ account', account' ≠ account →
       leftoverOf this' account' = leftoverOf this account') ∧
  (∃ this' leftover,
     getLeftoverOwnerFunds this account = Some leftover ∧
     addLeftoverOwnerFunds this account a = Some this' ∧
     getLeftoverOwnerFunds this' account = Some (Amount.add leftover a) ∧
     ∀ account', account' ≠ account →
       leftoverOf this' account' = leftoverOf this account') ∧
  getLeftoverOwnerFunds (clearOwnerFundsLeftover this) account
  = Some Amount.zero.
Proof.
  intros Ha.
  assert (∀ b account',
            account' ≠ account →
            leftoverOf
              (set_ownerFundsLeftover
                 (<[account := b]> (_ownerFundsLeftover this)) this) account'
            = leftoverOf this account') as Hframe.
  { intros b account' Hne. rewrite leftoverOf_insert.
    by rewrite decide_False by done. }
  assert (∀ b,
            getLeftoverOwnerFunds
              (set_ownerFundsLeftover
                 (<[account := b]> (_ownerFundsLeftover this)) this) account
            = Some b) as Hread.
  { intros b. rewrite getLeftoverOwnerFunds_valid by done.
    by rewrite leftoverOf_insert, decide_True. }
  split; [|split; [|split]].
  - eexists. unfold setLeftoverOwnerFunds. rewrite Ha. simpl.
    split; [reflexivity|]. split; [apply Hread | apply Hframe].
  - eexists. unfold resetOwnerFundsLeftover. rewrite Ha. simpl.
    split; [reflexivity|]. split; [apply Hread | apply Hframe].
  - eexists _, _. split; [by apply getLeftoverOwnerFunds_valid|].
    split; [by apply addLeftoverOwnerFunds_valid|].
    split; [apply Hread | apply Hframe].
  - rewrite getLeftoverOwnerFunds_valid by done.
    unfold leftoverOf. simpl. by rewrite lookup_empty.
Qed.


(** *** The emitted offers *)

(** X4.  Every offer that [calculate] returns is marked autobridged, carries
    its two values again as its funded amounts, is denominated in the hex
    forms of the two configured currencies, and reports as quality the text
    of its takerPays divided by its takerGets, with the book directory that
    the encoder gives for that ratio. *)
Theorem emitted_offers_format this s :
  calculate this = Returned s →
  Forall (λ ab,
            let ratio :=
              Amount.divide
                (Amount.from_json
                   (Autobridged.value (Autobridged.TakerPays ab)))
                (Amount.from_json
                   (Autobridged.value (Autobridged.TakerGets ab))) in
            Autobridged.autobridged ab = true ∧
            Autobridged.taker_gets_funded ab
            = Autobridged.value (Autobridged.TakerGets ab) ∧
            Autobridged.taker_pays_funded ab
            = Autobridged.value (Autobridged.TakerPays ab) ∧
            Autobridged.currency (Autobridged.TakerGets ab)
            = Currency.to_hex (_currencyGets this) ∧
            Autobridged.currency (Autobridged.TakerPays ab)
            = Currency.to_hex (_currencyPays this) ∧
            Autobridged.quality ab = Amount.to_text ratio ∧
            Autobridged.BookDirectory ab
            = Utils.convertOfferQualityToHex ratio)
    (offersAutobridged s).
Proof.
  intros (Hr & _)%loop_Returned.
  set (P := λ ab : Autobridged.t, _).
  assert ((_currencyGets (engine s) = _currencyGets this ∧
           _currencyPays (engine s) = _currencyPays this) ∧
          Forall P (offersAutobridged s)) as [_ H]; [|done].
  induction Hr as [|s1 s2 _ [[IHg IHp] IHf] (o1 & o2 & _ & Hit)].
  { split; [done | constructor]. }
  destruct (iteration_post _ _ _ _ Hit)
    as (this' & o1' & o2' & He & Hc & _ & _ & _ & Ho).
  destruct Hc as (Hg & Hp & _).
  rewrite He. simpl. rewrite Hg, Hp. split; [done|].
  destruct Ho as [->|(x & y & ->)]; [done|].
  apply Forall_app. split; [done|].
  apply Forall_singleton. unfold P. simpl.
  rewrite !Amount.from_json_to_text, Hg, Hp, IHg, IHp. done.
Qed.

(** *** Pairing two offers of one owner *)

(** X5.  A pass on two live offers of one owner in which the nominal
    takerGets of leg one and [p2] are both nonzero and the nominal exceeds
    [p2]: the funding limit of leg one plays no part in what is emitted (leg
    two's funded takerGets for [p2] times leg one's quality); the nominal
    takerGets of leg one is reduced by [p2]; its funded amount becomes the
    snapshot of its former funding when the reduced nominal still exceeds
    it, with the ledger untouched, and the reduced nominal otherwise, with
    the difference credited to the owner; only the leg-two pointer moves. *)
Theorem clamped_leg_one_same_owner s L1 L2 :
  current s = Some (L1, L2) →
  Account L1 = Account L2 →
  UInt160.is_valid (Account L1) = true →
  validLegOneOffer L1 = true →
  let funded := Utils.getOfferTakerGetsFunded L1 in
  let nominal := Utils.getOfferTakerGets L1 in
  let p2 := Utils.getOfferTakerPaysFunded L2 in
  let reduced := Amount.subtract nominal p2 in
  Amount.is_zero nominal = false →
  Amount.is_zero p2 = false →
  0 < Amount.compareTo nominal p2 →
  ∃ s' ab L1',
    iteration s L1 L2 = Some s' ∧
    offersAutobridged s' = offersAutobridged s ++ [ab] ∧
    Autobridged.value (Autobridged.TakerGets ab)
    = Amount.to_text (Utils.getOfferTakerGetsFunded L2) ∧
    Autobridged.value (Autobridged.TakerPays ab)
    = Amount.to_text
        (Amount.multiply p2
           (Utils.getOfferQuality L1 (_currencyGets (engine s)))) ∧
    legOnePointer s' = legOnePointer s ∧
    legTwoPointer s' = S (legTwoPointer s) ∧
    legOneOffers (engine s') !! legOnePointer s = Some L1' ∧
    Utils.getOfferTakerGets L1' = reduced ∧
    initTakerGetsFunded L1' = Some funded ∧
    (0 < Amount.compareTo reduced funded →
       Utils.getOfferTakerGetsFunded L1' = funded ∧
       _ownerFundsLeftover (engine s') = _ownerFundsLeftover (engine s)) ∧
    (¬ 0 < Amount.compareTo reduced funded →
       Utils.getOfferTakerGetsFunded L1' = reduced ∧
       leftoverOf (engine s') (Account L1)
       = Amount.add (leftoverOf (engine s) (Account L1))
           (Amount.subtract funded reduced)).
Proof.
  intros Hcur Hs Ha Hv funded nominal p2 reduced Hz1 Hz2 Hgt.
  pose proof (current_bounds _ _ _ Hcur) as [Hb _].
  pose proof (fundLegOne_same (engine s) L1 L2 Hs Ha Hv) as Hf.
  match type of Hf with
  | _ = Some (_, ?u) => set (U1 := u) in *
  end.
  assert (Utils.getOfferTakerGetsFunded U1 = nominal) as HgU.
  { unfold Utils.getOfferTakerGetsFunded at 1. simpl.
    by rewrite Amount.from_json_to_text. }
  assert (Utils.getOfferTakerGets U1 = nominal) as HnU by done.
  assert (Utils.getOfferQuality U1 (_currencyGets (engine s))
          = Utils.getOfferQuality L1 (_currencyGets (engine s))) as HqU
    by done.
  unfold iteration. rewrite Hf.
  cbn [mbind option_bind]. cbv beta iota zeta.
  rewrite HgU. fold p2. rewrite Hz1, Hz2, (proj2 (Z.ltb_lt _ _) Hgt).
  rewrite clampedLegOne_same by done. fold p2.
  rewrite HnU, HqU. fold reduced.
  match goal with
  | |- context [clampLegOneOwnerFunds ?t ?o] =>
      set (this0 := t); set (R := o)
  end.
  assert (validLegOneOffer R = true) as HvR by done.
  assert (UInt160.is_valid (Account R) = true) as HaR by done.
  assert (initTakerGetsFunded R = Some funded) as HiR by done.
  assert (Utils.getOfferTakerGets R = reduced) as HnR.
  { unfold Utils.getOfferTakerGets. simpl.
    by rewrite Amount.from_json_to_text. }
  destruct (decide (0 < Amount.compareTo reduced funded)) as [Hc|Hc].
  - rewrite (clampLegOneOwnerFunds_gt this0 R funded) by (by rewrite ?HnR).
    simpl. eexists _, _, _. split; [reflexivity|]. simpl.
    split; [reflexivity|]. simpl. split; [done|]. split; [done|].
    split; [done|]. split; [done|].
    split; [by apply list_lookup_insert_eq|].
    split; [done|]. split; [done|].
    split; [|done]. intros _. split; [|done].
    unfold Utils.getOfferTakerGetsFunded. simpl.
    by rewrite Amount.from_json_to_text.
  - rewrite (clampLegOneOwnerFunds_le this0 R funded) by (by rewrite ?HnR).
    simpl. eexists _, _, _. split; [reflexivity|]. simpl.
    split; [reflexivity|]. simpl. split; [done|]. split; [done|].
    split; [done|]. split; [done|].
    split; [by apply list_lookup_insert_eq|].
    split; [done|]. split; [done|].
    split; [done|]. intros _. split.
    + unfold Utils.getOfferTakerGetsFunded. simpl.
      by rewrite Amount.from_json_to_text.
    + unfold leftoverOf at 1. simpl. rewrite lookup_insert_eq. simpl.
      by rewrite HnR.
Qed.

(** X6.  Unclamping a leg-one offer and reapplying the clamp with nothing
    done in between gives back its funding, as long as the offer was not
    funded beyond its nominal amount: the funded takerGets is the former
    one, the funded takerPays is that amount at the offer's quality, and
    every account's leftover reads as before. *)
Theorem unclamp_clamp_round_trip this o :
  validLegOneOffer o = true →
  UInt160.is_valid (Account o) = true →
  0 ≤ Amount.compareTo (Utils.getOfferTakerGets o)
        (Utils.getOfferTakerGetsFunded o) →
  ∃ o1 this' o2,
    unclampLegOneOwnerFunds this o = Some o1 ∧
    Utils.getOfferTakerGetsFunded o1 = Utils.getOfferTakerGets o ∧
    clampLegOneOwnerFunds this o1 = Some (this', o2) ∧
    Utils.getOfferTakerGetsFunded o2 = Utils.getOfferTakerGetsFunded o ∧
    Utils.getOfferTakerPaysFunded o2
    = Amount.multiply (Utils.getOfferTakerGetsFunded o)
        (Utils.getOfferQuality o (_currencyGets this)) ∧
    TakerGets o2 = TakerGets o ∧
    TakerPays o2 = TakerPays o ∧
    ∀ account, leftoverOf this' account = leftoverOf this account.
Proof.
  intros Hv Ha Hle.
  rewrite unclampLegOneOwnerFunds_valid by done.
  match goal with
  | |- context [Some ?x = Some _] => set (U1 := x)
  end.
  assert (validLegOneOffer U1 = true) as Hv1 by done.
  assert (initTakerGetsFunded U1 = Some (Utils.getOfferTakerGetsFunded o))
    as Hi1 by done.
  assert (Utils.getOfferTakerGets U1 = Utils.getOfferTakerGets o) as Hn1
    by done.
  assert (Utils.getOfferTakerGetsFunded U1 = Utils.getOfferTakerGets o)
    as Hf1.
  { unfold Utils.getOfferTakerGetsFunded at 1. simpl.
    by rewrite Amount.from_json_to_text. }
  exists U1.
  destruct (decide (0 < Amount.compareTo (Utils.getOfferTakerGets o)
                          (Utils.getOfferTakerGetsFunded o))) as [Hc|Hc].
  - rewrite (clampLegOneOwnerFunds_gt this U1 _ Hv1 Hi1)
      by (by rewrite Hn1).
    eexists _, _. split; [reflexivity|]. split; [done|].
    split; [reflexivity|].
    unfold Utils.getOfferTakerGetsFunded at 1, Utils.getOfferTakerPaysFunded.
    simpl. rewrite !Amount.from_json_to_text. done.
  - assert (Utils.getOfferTakerGets o = Utils.getOfferTakerGetsFunded o)
      as Heq.
    { apply Amount.compareTo_eq. lia. }
    rewrite (clampLegOneOwnerFunds_le this U1 _ Hv1 Ha Hi1)
      by (by rewrite Hn1).
    eexists _, _. split; [reflexivity|]. split; [done|].
    split; [reflexivity|].
    unfold Utils.getOfferTakerGetsFunded at 1, Utils.getOfferTakerPaysFunded.
    simpl. rewrite !Amount.from_json_to_text, Hn1.
    split; [done|]. split; [by rewrite <- Heq|].
    split; [done|]. split; [done|].
    intros account. rewrite leftoverOf_insert.
    case_decide as Hacc; [|done]. subst account.
    change (Account U1) with (Account o).
    by rewrite <- Heq, Amount.subtract_diag, Amount.add_zero_r.
Qed.

(** *** Passes that emit nothing, passes that throw *)


(** X7.  The two skips.  When the funded takerGets of leg one is zero after
    the funding step, the pass emits nothing and moves the leg-one pointer
    only, whatever leg two holds.  When it is nonzero and the funded
    takerPays of leg two is zero, the pass emits nothing and moves the
    leg-two pointer only.  Either way the leg-one offer stays as the funding
    step left it, the leg-two array and the ledger as that step left
    them. *)
Theorem skipping_pass s L1 L2 :
  current s = Some (L1, L2) →
  UInt160.is_valid (Account L1) = true →
  validLegOneOffer L1 = true →
  ∃ this' L1',
    fundLegOne (engine s) L1 L2 = Some (this', L1') ∧
    let g1 := Utils.getOfferTakerGetsFunded L1' in
    let p2 := Utils.getOfferTakerPaysFunded L2 in
    (Amount.is_zero g1 = true ∨ Amount.is_zero p2 = true →
     ∃ s',
       iteration s L1 L2 = Some s' ∧
       offersAutobridged s' = offersAutobridged s ∧
       legOneOffers (engine s') !! legOnePointer s = Some L1' ∧
       legTwoOffers (engine s') = legTwoOffers (engine s) ∧
       _ownerFundsLeftover (engine s') = _ownerFundsLeftover this' ∧
       (Amount.is_zero g1 = true →
        legOnePointer s' = S (legOnePointer s) ∧
        legTwoPointer s' = legTwoPointer s) ∧
       (Amount.is_zero g1 = false →
        legOnePointer s' = legOnePointer s ∧
        legTwoPointer s' = S (legTwoPointer s))).
Proof.
  intros Hcur Ha Hv.
  destruct (fundLegOne_valid (engine s) L1 L2 Ha Hv) as (this1 & o1a & Hf).
  exists this1, o1a. split; [done|]. intros g1 p2 Hz.
  destruct (fundLegOne_post _ _ _ _ _ Hf)
    as ((_ & _ & _ & _ & Hl1 & Hl2) & _).
  destruct (current_bounds _ _ _ Hcur) as [Hb1 Hb2].
  apply current_Some in Hcur as [_ Hcur2].
  assert (legOneOffers (store s this1 o1a L2) !! legOnePointer s = Some o1a)
    as Hlook.
  { simpl. apply list_lookup_insert_eq. by rewrite Hl1. }
  assert (legTwoOffers (store s this1 o1a L2) = legTwoOffers (engine s))
    as Hsame.
  { simpl. rewrite Hl2. by apply list_insert_id. }
  unfold iteration. rewrite Hf. simpl. fold g1 p2.
  destruct (Amount.is_zero g1) eqn:Hz1.
  - eexists. split; [reflexivity|]. simpl.
    split; [done|]. split; [done|]. split; [done|]. split; [done|].
    split; [done|]. discriminate.
  - destruct Hz as [?|Hz2]; [done|]. rewrite Hz2.
    eexists. split; [reflexivity|]. simpl.
    split; [done|]. split; [done|]. split; [done|]. split; [done|].
    split; [discriminate | done].
Qed.


(** *** What a run leaves alone *)

Lemma sameIdentity_refl o : sameIdentity o o.
Proof. by repeat split. Qed.

Lemma sameIdentity_trans o1 o2 o3 :
  sameIdentity o1 o2 → sameIdentity o2 o3 → sameIdentity o1 o3.
Proof. unfold sameIdentity. intuition congruence. Qed.

Lemma sameButFunded_trans o1 o2 o3 :
  sameButFunded o1 o2 → sameButFunded o2 o3 → sameButFunded o1 o3.
Proof. unfold sameButFunded. intuition congruence. Qed.

Lemma adjustLegOneFundedAmount_identity this o this' o' :
  adjustLegOneFundedAmount this o = Some (this', o') → sameIdentity o o'.
Proof.
  intros H.
  destruct (adjustLegOneFundedAmount_Some _ _ _ H) as (Hv & Hf & Ha).
  destruct (decide (0 ≤ Amount.compareTo
                          (Amount.add (Utils.getOfferTakerGetsFunded o)
                             (leftoverOf this (Account o)))
                          (Utils.getOfferTakerGets o))) as [Hge|Hlt].
  - rewrite adjustLegOneFundedAmount_ge in H by done.
    injection H as <- <-. by repeat split.
  - rewrite adjustLegOneFundedAmount_lt in H by (done || lia).
    injection H as <- <-. by repeat split.
Qed.

Lemma clampLegOneOwnerFunds_identity this o this' o' :
  clampLegOneOwnerFunds this o = Some (this', o') → sameIdentity o o'.
Proof.
  intros H.
  destruct (clampLegOneOwnerFunds_Some _ _ _ H)
    as (Hv & init & Hi & [Hgt|[Hle Ha]]).
  - rewrite (clampLegOneOwnerFunds_gt _ _ init) in H by done.
    injection H as <- <-. by repeat split.
  - rewrite (clampLegOneOwnerFunds_le _ _ init) in H by done.
    injection H as <- <-. by repeat split.
Qed.

Lemma fundLegOne_identity this o1 o2 this' o1' :
  fundLegOne this o1 o2 = Some (this', o1') → sameIdentity o1 o1'.
Proof.
  unfold fundLegOne. intros H.
  destruct (getLeftoverOwnerFunds this (Account o1)) as [l|]; [|done].
  simpl in H.
  destruct (decide (Account o1 = Account o2)) as [Hs|Hd].
  - destruct (unclampLegOneOwnerFunds this o1) as [o|] eqn:Hu; [|done].
    simpl in H. injection H as <- <-.
    pose proof (unclampLegOneOwnerFunds_Some _ _ _ Hu) as Hv.
    rewrite unclampLegOneOwnerFunds_valid in Hu by done.
    injection Hu as <-. by repeat split.
  - destruct (negb (is_fully_funded o1) && negb (Amount.is_zero l)).
    + by eapply adjustLegOneFundedAmount_identity.
    + injection H as <- <-. apply sameIdentity_refl.
Qed.

Lemma clampedLegOne_identity this o1 o2 this' o1' ab :
  getAutobridgedOfferWithClampedLegOne this o1 o2 = Some (this', o1', ab) →
  sameIdentity o1 o1'.
Proof.
  intros H. pose proof (clampedLegOne_Some _ _ _ _ H) as Hv.
  destruct (decide (Account o1 = Account o2)) as [Hs|Hd].
  - rewrite clampedLegOne_same in H by done.
    match type of H with
    | context [clampLegOneOwnerFunds ?t ?o] =>
        destruct (clampLegOneOwnerFunds t o) as [[this2 o2']|] eqn:Hc; [|done]
    end.
    simpl in H. injection H as <- <- <-.
    eapply sameIdentity_trans;
      [|by eapply clampLegOneOwnerFunds_identity].
    by repeat split.
  - rewrite clampedLegOne_different in H by done.
    injection H as <- <- <-. by repeat split.
Qed.

(** One pass rewrites the two offers at the pointers and no other; the
    leg-one offer keeps its identity, the leg-two offer all but its funded
    texts. *)
Lemma iteration_frame s o1 o2 s' :
  iteration s o1 o2 = Some s' →
  ∃ o1' o2',
    legOneOffers (engine s')
    = <[legOnePointer s := o1']> (legOneOffers (engine s)) ∧
    legTwoOffers (engine s')
    = <[legTwoPointer s := o2']> (legTwoOffers (engine s)) ∧
    sameIdentity o1 o1' ∧
    sameButFunded o2 o2'.
Proof.
  intros (this1 & o1a & Hf & Hcases)%iteration_inv.
  pose proof (fundLegOne_identity _ _ _ _ _ Hf) as Hid.
  destruct (fundLegOne_post _ _ _ _ _ Hf)
    as ((_ & _ & _ & _ & Hl1 & Hl2) & _).
  assert (sameButFunded o2 o2) as Hrefl by (by repeat split).
  destruct Hcases as [[_ ->]|[[_ ->]|[(this2 & o1b & ab & Hp & ->)|[->| ->]]]];
    simpl.
  - exists o1a, o2. by rewrite Hl1, Hl2.
  - exists o1a, o2. by rewrite Hl1, Hl2.
  - destruct (clampedLegOne_post _ _ _ _ _ _ Hp)
      as ((_ & _ & _ & _ & Hl1' & Hl2') & _).
    exists o1b, o2. rewrite Hl1', Hl2', Hl1, Hl2.
    split; [done|]. split; [done|]. split; [|done].
    by eapply sameIdentity_trans, clampedLegOne_identity.
  - eexists o1a, _. rewrite Hl1, Hl2.
    split; [done|]. split; [reflexivity|]. split; [done|].
    by repeat split.
  - exists o1a, o2. by rewrite Hl1, Hl2.
Qed.

(** X9.  Through a call of [calculate] the two arrays keep their lengths;
    an offer beyond a pointer is still the offer that was passed in; a
    leg-one offer, wherever it is, keeps its owner, book directory and
    quality; a leg-two offer keeps everything but its two funded texts. *)
Theorem run_leaves_alone this s :
  reaches (enter this) s →
  length (legOneOffers (engine s)) = length (legOneOffers this) ∧
  length (legTwoOffers (engine s)) = length (legTwoOffers this) ∧
  (∀ k, (legOnePointer s < k)%nat →
        legOneOffers (engine s) !! k = legOneOffers this !! k) ∧
  (∀ k, (legTwoPointer s < k)%nat →
        legTwoOffers (engine s) !! k = legTwoOffers this !! k) ∧
  (∀ k o, legOneOffers (engine s) !! k = Some o →
          ∃ o0, legOneOffers this !! k = Some o0 ∧ sameIdentity o0 o) ∧
  (∀ k o, legTwoOffers (engine s) !! k = Some o →
          ∃ o0, legTwoOffers this !! k = Some o0 ∧ sameButFunded o0 o).
Proof.
  induction 1 as [|s1 s2 _ IH (o1 & o2 & Hcur & Hit)].
  { simpl. split; [done|]. split; [done|]. split; [done|]. split; [done|].
    split; intros k o Hk; exists o; by repeat split. }
  destruct IH as (IHn1 & IHn2 & IHb1 & IHb2 & IHi1 & IHi2).
  destruct (iteration_frame _ _ _ _ Hit) as (o1' & o2' & Hl1 & Hl2 & Hid1 & Hid2).
  destruct (iteration_advances _ _ _ _ Hcur Hit) as (Hp1 & Hp2 & _).
  pose proof Hcur as [Hc1 Hc2]%current_Some.
  rewrite Hl1, Hl2, !length_insert.
  split; [done|]. split; [done|].
  split; [|split; [|split]].
  - intros k Hk. rewrite list_lookup_insert_ne by lia. apply IHb1. lia.
  - intros k Hk. rewrite list_lookup_insert_ne by lia. apply IHb2. lia.
  - intros k o [(Hk & Ho & _)|[_ Hk]]%list_lookup_insert_Some.
    + subst k o. destruct (IHi1 _ _ Hc1) as (o0 & H0 & Hs0).
      exists o0. split; [done|]. by eapply sameIdentity_trans.
    + by apply IHi1.
  - intros k o [(Hk & Ho & _)|[_ Hk]]%list_lookup_insert_Some.
    + subst k o. destruct (IHi2 _ _ Hc2) as (o0 & H0 & Hs0).
      exists o0. split; [done|]. by eapply sameButFunded_trans.
    + by apply IHi2.
Qed.


(** *** Nothing is lost, nothing is made up *)

(** X11.  A top-up moves funds from the owner's leftover to the offer and
    neither loses nor creates any: the funded takerGets plus the owner's
    leftover is the same amount after as before.  It never funds the offer
    beyond its nominal takerGets, and leaves every other account's leftover
    alone. *)
Theorem top_up_conserves this o this' o' :
  adjustLegOneFundedAmount this o = Some (this', o') →
  Amount.add (Utils.getOfferTakerGetsFunded o') (leftoverOf this' (Account o))
  = Amount.add (Utils.getOfferTakerGetsFunded o) (leftoverOf this (Account o)) ∧
  0 ≤ Amount.compareTo (Utils.getOfferTakerGets o')
        (Utils.getOfferTakerGetsFunded o') ∧
  ∀ account, account ≠ Account o →
    leftoverOf this' account = leftoverOf this account.
Proof.
  intros H.
  destruct (adjustLegOneFundedAmount_Some _ _ _ H) as (Hv & Hf & Ha).
  set (sum := Amount.add (Utils.getOfferTakerGetsFunded o)
                (leftoverOf this (Account o))).
  destruct (decide (0 ≤ Amount.compareTo sum (Utils.getOfferTakerGets o)))
    as [Hge|Hlt].
  - rewrite adjustLegOneFundedAmount_ge in H by done.
    injection H as <- <-. fold sum.
    unfold Utils.getOfferTakerGetsFunded at 1 2. simpl.
    rewrite Amount.from_json_to_text, leftoverOf_insert, decide_True by done.
    split; [by rewrite AmountArith.add_subtract|].
    split.
    + change (Utils.getOfferTakerGets (set_taker_pays_funded _ _))
        with (Utils.getOfferTakerGets o).
      by rewrite (proj2 (Amount.compareTo_eq _ _) eq_refl).
    + intros account Hne. rewrite leftoverOf_insert.
      by rewrite decide_False by done.
  - rewrite adjustLegOneFundedAmount_lt in H by (done || (fold sum; lia)).
    injection H as <- <-. fold sum.
    unfold Utils.getOfferTakerGetsFunded at 1 2. simpl.
    rewrite Amount.from_json_to_text, leftoverOf_insert, decide_True by done.
    split; [by rewrite Amount.add_zero_r|].
    split.
    + change (Utils.getOfferTakerGets (set_taker_pays_funded _ _))
        with (Utils.getOfferTakerGets o).
      rewrite (Amount.compareTo_antisym sum). lia.
    + intros account Hne. rewrite leftoverOf_insert.
      by rewrite decide_False by done.
Qed.

(** X12.  Reapplying the clamp splits the snapshot of the former funding
    into what stays funded on the offer and what is credited to its owner:
    the two add up to the snapshot, the credit is not negative, the offer is
    not left funded beyond its nominal takerGets, and every other account's
    leftover is left alone. *)
Theorem clamp_conserves this o init this' o' :
  clampLegOneOwnerFunds this o = Some (this', o') →
  initTakerGetsFunded o = Some init →
  (∃ credit,
     nonNegative credit ∧
     Amount.add (Utils.getOfferTakerGetsFunded o') credit = init ∧
     leftoverOf this' (Account o)
     = Amount.add (leftoverOf this (Account o)) credit) ∧
  0 ≤ Amount.compareTo (Utils.getOfferTakerGets o')
        (Utils.getOfferTakerGetsFunded o') ∧
  ∀ account, account ≠ Account o →
    leftoverOf this' account = leftoverOf this account.
Proof.
  intros H Hi.
  destruct (clampLegOneOwnerFunds_Some _ _ _ H)
    as (Hv & init' & Hi' & [Hgt|[Hle Ha]]);
    assert (init' = init) as -> by congruence.
  - rewrite (clampLegOneOwnerFunds_gt _ _ init) in H by done.
    injection H as <- <-.
    unfold Utils.getOfferTakerGetsFunded. simpl.
    rewrite Amount.from_json_to_text.
    split; [|split; [|done]].
    + exists Amount.zero. split; [apply nonNegative_zero|].
      by rewrite !Amount.add_zero_r.
    + change (Utils.getOfferTakerGets (set_taker_pays_funded _ _))
        with (Utils.getOfferTakerGets o). lia.
  - rewrite (clampLegOneOwnerFunds_le _ _ init) in H by done.
    injection H as <- <-.
    unfold Utils.getOfferTakerGetsFunded. simpl.
    rewrite Amount.from_json_to_text.
    split; [|split].
    + exists (Amount.subtract init (Utils.getOfferTakerGets o)).
      split; [apply Amount.subtract_nonneg; by apply nonNegative_flip|].
      split; [by rewrite AmountArith.add_subtract|].
      by rewrite leftoverOf_insert, decide_True.
    + change (Utils.getOfferTakerGets (set_taker_pays_funded _ _))
        with (Utils.getOfferTakerGets o).
      by rewrite (proj2 (Amount.compareTo_eq _ _) eq_refl).
    + intros account Hne. rewrite leftoverOf_insert.
      by rewrite decide_False by done.
Qed.

(** X13.  Topping up twice is topping up once.  The flag of the offer is
    not raised by a top-up, so the loop tops the offer up again in every
    later pass in which its owner still has a leftover; the second top-up
    succeeds and changes neither funded text nor any account's leftover. *)
Theorem top_up_idempotent this o this1 o1 :
  adjustLegOneFundedAmount this o = Some (this1, o1) →
  ∃ this2 o2,
    adjustLegOneFundedAmount this1 o1 = Some (this2, o2) ∧
    is_fully_funded o1 = false ∧
    taker_gets_funded o2 = taker_gets_funded o1 ∧
    taker_pays_funded o2 = taker_pays_funded o1 ∧
    ∀ account, leftoverOf this2 account = leftoverOf this1 account.
Proof.
  intros H.
  destruct (adjustLegOneFundedAmount_Some _ _ _ H) as (Hv & Hf & Ha).
  set (sum := Amount.add (Utils.getOfferTakerGetsFunded o)
                (leftoverOf this (Account o))).
  set (nominal := Utils.getOfferTakerGets o).
  destruct (decide (0 ≤ Amount.compareTo sum nominal)) as [Hge|Hlt].
  - rewrite adjustLegOneFundedAmount_ge in H by done.
    injection H as <- <-. fold sum nominal.
    match goal with
    | |- context [adjustLegOneFundedAmount ?t ?x] =>
        set (this1 := t); set (o1 := x)
    end.
    assert (Amount.add (Utils.getOfferTakerGetsFunded o1)
              (leftoverOf this1 (Account o1)) = sum) as Hsum.
    { unfold Utils.getOfferTakerGetsFunded at 1. simpl.
      unfold this1. rewrite leftoverOf_insert, decide_True by done.
      by rewrite Amount.from_json_to_text, AmountArith.add_subtract. }
    rewrite (adjustLegOneFundedAmount_ge this1 o1) by (by rewrite ?Hsum).
    eexists _, _. split; [reflexivity|].
    split; [done|]. split; [done|]. split; [done|].
    intros account. rewrite Hsum, leftoverOf_insert.
    case_decide as Hacc; [|done]. subst account.
    unfold this1. by rewrite leftoverOf_insert, decide_True.
  - rewrite adjustLegOneFundedAmount_lt in H
      by (done || (fold sum nominal; lia)).
    injection H as <- <-. fold sum nominal.
    match goal with
    | |- context [adjustLegOneFundedAmount ?t ?x] =>
        set (this1 := t); set (o1 := x)
    end.
    assert (Amount.add (Utils.getOfferTakerGetsFunded o1)
              (leftoverOf this1 (Account o1)) = sum) as Hsum.
    { unfold Utils.getOfferTakerGetsFunded at 1. simpl.
      unfold this1. rewrite leftoverOf_insert, decide_True by done.
      by rewrite Amount.from_json_to_text, Amount.add_zero_r. }
    rewrite (adjustLegOneFundedAmount_lt this1 o1)
      by (rewrite ?Hsum;
          (done || (change (Utils.getOfferTakerGets o1) with nominal; lia))).
    eexists _, _. split; [reflexivity|].
    split; [done|]. rewrite Hsum. split; [done|]. split; [done|].
    intros account. rewrite leftoverOf_insert.
    case_decide as Hacc; [|done]. subst account.
    unfold this1. by rewrite leftoverOf_insert, decide_True.
Qed.

(** *** Two things a user may not expect *)

(** X14.  When the two offers have one owner and the leg-two offer is not
    funded while the leg-one offer has a nonzero nominal amount, the pass
    skips the leg-two offer without reapplying the clamp: the leg-one offer
    stays at the leg-one pointer funded for its whole nominal takerGets,
    with its former funding kept in the snapshot only, and the ledger is
    not written. *)
Theorem same_owner_skip_keeps_unclamped s L1 L2 :
  current s = Some (L1, L2) →
  Account L1 = Account L2 →
  UInt160.is_valid (Account L1) = true →
  validLegOneOffer L1 = true →
  Amount.is_zero (Utils.getOfferTakerGets L1) = false →
  Amount.is_zero (Utils.getOfferTakerPaysFunded L2) = true →
  ∃ s' L1',
    iteration s L1 L2 = Some s' ∧
    offersAutobridged s' = offersAutobridged s ∧
    legOnePointer s' = legOnePointer s ∧
    legTwoPointer s' = S (legTwoPointer s) ∧
    legOneOffers (engine s') !! legOnePointer s' = Some L1' ∧
    Utils.getOfferTakerGetsFunded L1' = Utils.getOfferTakerGets L1 ∧
    initTakerGetsFunded L1' = Some (Utils.getOfferTakerGetsFunded L1) ∧
    _ownerFundsLeftover (engine s') = _ownerFundsLeftover (engine s).
Proof.
  intros Hcur Hs Ha Hv Hz1 Hz2.
  pose proof (current_bounds _ _ _ Hcur) as [Hb _].
  pose proof (fundLegOne_same (engine s) L1 L2 Hs Ha Hv) as Hf.
  match type of Hf with
  | _ = Some (_, ?u) => set (U1 := u) in *
  end.
  assert (Utils.getOfferTakerGetsFunded U1 = Utils.getOfferTakerGets L1)
    as HgU.
  { unfold Utils.getOfferTakerGetsFunded at 1. simpl.
    by rewrite Amount.from_json_to_text. }
  unfold iteration. rewrite Hf.
  cbn [mbind option_bind]. cbv beta iota zeta.
  rewrite HgU, Hz1, Hz2.
  eexists _, U1. split; [reflexivity|]. simpl.
  split; [done|]. split; [done|]. split; [done|].
  split; [by apply list_lookup_insert_eq|]. done.
Qed.

(** X15.  The ledger holds entries for owners of leg-one offers only, and
    only for owners that pass the format check: in every state of the loop,
    an account with an entry is the owner of one of the leg-one offers that
    were passed in. *)
Theorem ledger_entries_are_leg_one_owners this s :
  reaches (enter this) s →
  ∀ account,
    is_Some (_ownerFundsLeftover (engine s) !! account) →
    UInt160.is_valid account = true ∧
    ∃ k o, legOneOffers this !! k = Some o ∧ Account o = account.
Proof.
  intros Hr.
  assert ((∀ k o, legOneOffers (engine s) !! k = Some o →
                  ∃ o0, legOneOffers this !! k = Some o0 ∧
                        Account o0 = Account o) ∧
          ∀ account,
            is_Some (_ownerFundsLeftover (engine s) !! account) →
            UInt160.is_valid account = true ∧
            ∃ k o, legOneOffers this !! k = Some o ∧ Account o = account)
    as [_ H]; [|done].
  induction Hr as [|s1 s2 _ [IHa IHl] (o1 & o2 & Hcur & Hit)].
  { split; [by eauto|]. simpl. intros account [x Hx].
    by rewrite lookup_empty in Hx. }
  pose proof Hcur as [Hc1 _]%current_Some.
  destruct (IHa _ _ Hc1) as (o0 & H0 & Hacc0).
  destruct (iteration_frame _ _ _ _ Hit)
    as (o1' & o2' & Hl1 & _ & (Hacc & _) & _).
  destruct (iteration_post _ _ _ _ Hit) as (_ & _ & _ & _ & _ & _ & Hval & _).
  split.
  - rewrite Hl1.
    intros k o [(Hk & Ho & _)|[_ Hk]]%list_lookup_insert_Some;
      [|by apply IHa].
    subst k o. exists o0. split; [done|]. congruence.
  - intros account.
    destruct (iteration_ledger _ _ _ _ Hit)
      as [->|[(_ & r & _ & ->)|(_ & d & _ & ->)]]; [apply IHl| |];
      (rewrite lookup_insert; case_decide as Heq; [|apply IHl]);
      intros _; subst account;
      (split; [done|]); exists (legOnePointer s1), o0; by split.
Qed.

End MoreProofs.

(** * Runs on explicit inputs *)

Import QcAmount Concrete.

(** Equations between rationals in canonical form, by evaluation. *)
Ltac qc_eq := apply Qc_is_canon; vm_compute; reflexivity.

(** Closed facts whose two sides evaluate to the same number, flag or
    text. *)
Ltac by_evaluation := vm_compute; reflexivity.

(** On the leg-one-surplus scenario ([g1 = 100], [p2 = 40], two owners) the
    pass emits 20 output for 20 input, leaves 60 funded on leg one and moves
    the leg-two pointer only. *)
Lemma clamped_leg_one_different_owners_witness :
  ∃ s' ab L1'',
    iteration (enter surplus_engine) surplus_L1 surplus_L2 = Some s' ∧
    offersAutobridged s' = [ab] ∧
    Autobridged.value (Autobridged.TakerGets ab) = amt 20 1 ∧
    Autobridged.value (Autobridged.TakerPays ab) = amt 20 1 ∧
    legOneOffers (engine s') !! legOnePointer s' = Some L1'' ∧
    taker_gets_funded L1'' = amt 60 1 ∧
    legOnePointer s' = 0%nat ∧
    legTwoPointer s' = 1%nat.
Proof.
  destruct (clamped_leg_one_different_owners
              (enter surplus_engine) surplus_L1 surplus_L2)
    as (this' & L1' & Hf & H);
    [reflexivity | discriminate | reflexivity | reflexivity |].
  assert (fundLegOne (engine (enter surplus_engine)) surplus_L1 surplus_L2
          = Some (engine (enter surplus_engine), surplus_L1)) as Hf'
    by reflexivity.
  rewrite Hf' in Hf. injection Hf as <- <-.
  destruct H as (s' & ab & L1'' & Hit & Ho & Hg & Hp & Hl & Hfun & _ & Hi & Hj);
    [by_evaluation | by_evaluation | by_evaluation |].
  exists s', ab, L1''.
  split; [exact Hit|]. split; [exact Ho|].
  split; [rewrite Hg; qc_eq|]. split; [rewrite Hp; qc_eq|].
  split; [exact Hl|]. split; [rewrite Hfun; qc_eq|].
  split; [exact Hi | exact Hj].
Defined.

(** With [g1 = 40] and [p2 = 100] the pass emits 16 output for 20 input,
    leaves 24 and 60 funded on leg two and moves the leg-one pointer only. *)
Lemma clamped_leg_two_witness :
  ∃ s' ab L2',
    iteration (enter short_engine) short_L1 short_L2 = Some s' ∧
    offersAutobridged s' = [ab] ∧
    Autobridged.value (Autobridged.TakerGets ab) = amt 16 1 ∧
    Autobridged.value (Autobridged.TakerPays ab) = amt 20 1 ∧
    legTwoOffers (engine s') !! legTwoPointer s' = Some L2' ∧
    taker_gets_funded L2' = amt 24 1 ∧
    taker_pays_funded L2' = amt 60 1 ∧
    legOnePointer s' = 1%nat ∧
    legTwoPointer s' = 0%nat.
Proof.
  destruct (clamped_leg_two (enter short_engine) short_L1 short_L2)
    as (this' & L1' & Hf & H); [reflexivity | reflexivity | reflexivity |].
  assert (fundLegOne (engine (enter short_engine)) short_L1 short_L2
          = Some (engine (enter short_engine), short_L1)) as Hf'
    by reflexivity.
  rewrite Hf' in Hf. injection Hf as <- <-.
  destruct H as (s' & ab & L2' & Hit & Ho & Hg & Hp & Hl & Hfg & Hfp & Hi & Hj);
    [by_evaluation | by_evaluation | by_evaluation |].
  exists s', ab, L2'.
  split; [exact Hit|]. split; [exact Ho|].
  split; [rewrite Hg; qc_eq|]. split; [rewrite Hp; qc_eq|].
  split; [exact Hl|]. split; [rewrite Hfg; qc_eq|].
  split; [rewrite Hfp; qc_eq|].
  split; [exact Hi | exact Hj].
Defined.

(** The clamp on an offer reduced to 20 below its snapshot of 30: 20 stays
    funded and 10 goes to the owner's leftover. *)
Lemma clamp_reconcile_witness :
  ∃ this' o',
    clampLegOneOwnerFunds equal_engine reduced_L1 = Some (this', o') ∧
    taker_gets_funded o' = amt 20 1 ∧
    getLeftoverOwnerFunds equal_engine "A" = Some (amt 0 1) ∧
    getLeftoverOwnerFunds this' "A" = Some (amt 10 1).
Proof.
  destruct (clamp_reconcile equal_engine reduced_L1 (amt 30 1))
    as (this' & o' & Hc & _ & Hlt); [reflexivity | reflexivity | reflexivity |].
  destruct Hlt as [Hfun Hleft]; [by_evaluation|].
  exists this', o'. split; [exact Hc|]. split; [rewrite Hfun; qc_eq|].
  split; [reflexivity|].
  pose proof (Hleft (amt 0 1) eq_refl) as Hl.
  change (Account reduced_L1) with "A"%string in Hl.
  rewrite Hl. f_equal; qc_eq.
Defined.

(** The top-up of an offer funded for 30 of 100 with a leftover of 50: 80 is
    funded and the leftover is used up. *)
Lemma top_up_witness :
  ∃ this' o',
    adjustLegOneFundedAmount under_engine under_L1 = Some (this', o') ∧
    taker_gets_funded o' = amt 80 1 ∧
    getLeftoverOwnerFunds this' "A" = Some (amt 0 1).
Proof.
  destruct (top_up under_engine under_L1 (amt 50 1))
    as (this' & o' & Ha & _ & Hlt); [reflexivity | reflexivity | reflexivity |].
  destruct Hlt as [Hfun Hleft]; [by_evaluation|].
  exists this', o'. split; [exact Ha|]. split; [rewrite Hfun; qc_eq|].
  exact Hleft.
Defined.

(** An amount is known by the fraction it holds. *)
Lemma Qc_this_eq (a : Qc) (q : Q) : Qcanon.this a = q → a = Q2Qc q.
Proof.
  intros <-. apply Qc_is_canon. simpl. symmetry. apply Qred_correct.
Qed.

(** With one owner on both legs and a leg-one offer funded for 80 of 100,
    the clamp leaves 20 in the owner's ledger entry. *)
Lemma leftover_never_negative_witness :
  ∃ s,
    calculate owner_engine = Returned s ∧
    leftoverOf (engine s) "A" = amt 20 1 ∧
    nonNegative (leftoverOf (engine s) "A").
Proof.
  assert ((λ s, Qcanon.this (leftoverOf (engine s) "A"))
            <$> finalState (calculate owner_engine)
          = Some (20 # 1)%Q) as Hobs by by_evaluation.
  destruct (calculate owner_engine) as [s| |] eqn:Hc; try discriminate Hobs.
  injection Hobs as Hobs.
  exists s. split; [reflexivity|].
  destruct (loop_Returned _ _ _ Hc) as (Hr & _).
  destruct (leftover_never_negative owner_engine) as [_ H].
  destruct (H s Hr) as (Hnn & _).
  split; [by apply Qc_this_eq | apply Hnn].
Defined.

(** The leg-one-surplus scenario meets the input contract, and the call
    returns one offer. *)
Lemma calculate_terminates_witness :
  calculate surplus_engine ≠ OutOfFuel ∧
  ∃ offers,
    returned (calculate surplus_engine) = Some offers ∧
    length offers = 1%nat.
Proof.
  destruct (calculate_terminates surplus_engine)
    as (Hne & _ & _ & _ & _ & Hret).
  split; [exact Hne|].
  destruct Hret as [offers Ho]; [repeat constructor|].
  exists offers. split; [exact Ho|].
  assert (length <$> returned (calculate surplus_engine) = Some 1%nat) as Hobs
    by by_evaluation.
  rewrite Ho in Hobs. by injection Hobs.
Defined.

(** The same-owner scenario: the nominal 100 is reduced by 40; the offer is
    left with the text of 60 as [TakerGets] and the [Amount] 30 as
    [TakerPays]. *)
Lemma same_owner_reduction_mixed_shape_witness :
  ∃ s' L1'',
    iteration (enter owner_engine) owner_L1 owner_L2 = Some s' ∧
    legOnePointer s' = 0%nat ∧
    legOneOffers (engine s') !! 0%nat = Some L1'' ∧
    TakerGets L1'' = JsString (amt 60 1) ∧
    TakerPays L1'' = JsAmount (amt 30 1) ∧
    ∀ s'',
      reaches s' s'' →
      ∃ o, legOneOffers (engine s'') !! 0%nat = Some o ∧ mixedShape o.
Proof.
  destruct (same_owner_reduction_mixed_shape
              (enter owner_engine) owner_L1 owner_L2)
    as (this' & L1' & Hf & H);
    [reflexivity | reflexivity | reflexivity | reflexivity |].
  rewrite fundLegOne_same in Hf by reflexivity. injection Hf as <- <-.
  destruct H as (s' & L1'' & Hit & Hi & Hl & Hg & Hp & Hr);
    [by_evaluation | by_evaluation | by_evaluation |].
  exists s', L1''. split; [exact Hit|]. split; [exact Hi|].
  split; [by rewrite Hi in Hl|].
  split; [rewrite Hg; f_equal; qc_eq|].
  split; [rewrite Hp; f_equal; qc_eq|].
  exact Hr.
Defined.

(** C10, as stated, fails when leg two is not funded: the owners are the
    same and [g1 = 100 > p2 = 0], yet the pass only skips the leg-two offer;
    the leg-one offer at the pointer keeps its [TakerPays] object and is
    not in the mixed shape. *)
Lemma same_owner_unfunded_leg_two_counterexample :
  ∃ this' L1' s' o,
    current (enter unfunded_engine) = Some (owner_L1, unfunded_L2) ∧
    Account owner_L1 = Account unfunded_L2 ∧
    fundLegOne (engine (enter unfunded_engine)) owner_L1 unfunded_L2
    = Some (this', L1') ∧
    0 < Amount.compareTo (Utils.getOfferTakerGetsFunded L1')
          (Utils.getOfferTakerPaysFunded unfunded_L2) ∧
    iteration (enter unfunded_engine) owner_L1 unfunded_L2 = Some s' ∧
    legOnePointer s' = legOnePointer (enter unfunded_engine) ∧
    legOneOffers (engine s') !! legOnePointer s' = Some o ∧
    instanceof_Amount (TakerPays o) = false ∧
    ¬ mixedShape o.
Proof.
  assert ((λ r, Amount.compareTo (Utils.getOfferTakerGetsFunded r.2)
                  (Utils.getOfferTakerPaysFunded unfunded_L2))
            <$> fundLegOne (engine (enter unfunded_engine)) owner_L1 unfunded_L2
          = Some 1) as Hg by by_evaluation.
  assert ((λ s', (legOnePointer s',
                  (instanceof_Amount ∘ TakerPays)
                    <$> legOneOffers (engine s') !! legOnePointer s'))
            <$> iteration (enter unfunded_engine) owner_L1 unfunded_L2
          = Some (0%nat, Some false)) as Hp by by_evaluation.
  destruct (fundLegOne _ _ _) as [[this' L1']|]; [|discriminate Hg].
  destruct (iteration _ _ _) as [s'|]; [|discriminate Hp].
  assert (Amount.compareTo (Utils.getOfferTakerGetsFunded L1')
            (Utils.getOfferTakerPaysFunded unfunded_L2) = 1) as Hg'
    by (by injection Hg).
  simpl in Hp. injection Hp as Hi Hp.
  destruct (legOneOffers (engine s') !! legOnePointer s') as [o|] eqn:Ho;
    [|discriminate Hp].
  injection Hp as Hp.
  exists this', L1', s', o.
  split; [reflexivity|]. split; [reflexivity|]. split; [reflexivity|].
  split; [rewrite Hg'; reflexivity|]. split; [reflexivity|].
  split; [exact Hi|]. split; [exact Ho|]. split; [exact Hp|].
  intros [_ Hm]. congruence.
Qed.

(** C9, as stated, fails when neither offer is funded: [g1 = p2 = 0], and
    the pass emits nothing and moves the leg-one pointer only. *)
Lemma without_clamps_zero_counterexample :
  ∃ this' L1' s',
    current (enter empty_engine) = Some (empty_L1, empty_L2) ∧
    fundLegOne (engine (enter empty_engine)) empty_L1 empty_L2
    = Some (this', L1') ∧
    Utils.getOfferTakerGetsFunded L1' = Utils.getOfferTakerPaysFunded empty_L2 ∧
    iteration (enter empty_engine) empty_L1 empty_L2 = Some s' ∧
    offersAutobridged s' = [] ∧
    legOnePointer s' = 1%nat ∧
    legTwoPointer s' = legTwoPointer (enter empty_engine).
Proof.
  assert ((λ r, Amount.compareTo (Utils.getOfferTakerGetsFunded r.2)
                  (Utils.getOfferTakerPaysFunded empty_L2))
            <$> fundLegOne (engine (enter empty_engine)) empty_L1 empty_L2
          = Some 0) as Hg by by_evaluation.
  assert ((λ s', (length (offersAutobridged s'), legOnePointer s',
                  legTwoPointer s'))
            <$> iteration (enter empty_engine) empty_L1 empty_L2
          = Some (0%nat, 1%nat, 0%nat)) as Hp by by_evaluation.
  destruct (fundLegOne _ _ _) as [[this' L1']|]; [|discriminate Hg].
  destruct (iteration _ _ _) as [s'|]; [|discriminate Hp].
  assert (Amount.compareTo (Utils.getOfferTakerGetsFunded L1')
            (Utils.getOfferTakerPaysFunded empty_L2) = 0) as Hg'
    by (by injection Hg).
  simpl in Hp. injection Hp as Hn Hi Hj.
  exists this', L1', s'.
  split; [reflexivity|]. split; [reflexivity|].
  split; [by apply Amount.compareTo_eq|].
  split; [reflexivity|].
  split; [by destruct (offersAutobridged s')|].
  split; [exact Hi | exact Hj].
Qed.

(** C9, amended.  A pass on two live offers in which [g1] equals [p2]
    exactly and is nonzero emits an offer whose takerGets is leg two's funded
    takerGets and whose takerPays is leg one's funded takerPays, and advances
    both pointers.  On the spec's equal-case scenario [calculate] returns
    exactly one offer, 40 output for 50 input at quality 5/4 = 1.25, with
    both pointers at the end of their arrays. *)
Theorem without_clamps_equal_case :
  (∀ (O : Amount.Ops) (L : Amount.Laws O) (C : Currency.Ops)
     (U : UInt160.Ops) (E : Utils.Encoder) (s : LoopState) (L1 L2 : Offer),
     current s = Some (L1, L2) →
     UInt160.is_valid (Account L1) = true →
     validLegOneOffer L1 = true →
     ∃ this' L1',
       fundLegOne (engine s) L1 L2 = Some (this', L1') ∧
       let g1 := Utils.getOfferTakerGetsFunded L1' in
       let p2 := Utils.getOfferTakerPaysFunded L2 in
       g1 = p2 →
       Amount.is_zero g1 = false →
       ∃ s' ab,
         iteration s L1 L2 = Some s' ∧
         offersAutobridged s' = offersAutobridged s ++ [ab] ∧
         Autobridged.value (Autobridged.TakerGets ab)
         = Amount.to_text (Utils.getOfferTakerGetsFunded L2) ∧
         Autobridged.value (Autobridged.TakerPays ab)
         = Amount.to_text (Utils.getOfferTakerPaysFunded L1') ∧
         legOnePointer s' = S (legOnePointer s) ∧
         legTwoPointer s' = S (legTwoPointer s)) ∧
  (∃ s ab,
     calculate equal_engine = Returned s ∧
     offersAutobridged s = [ab] ∧
     Autobridged.value (Autobridged.TakerGets ab) = amt 40 1 ∧
     Autobridged.currency (Autobridged.TakerGets ab) = "OUT"%string ∧
     Autobridged.value (Autobridged.TakerPays ab) = amt 50 1 ∧
     Autobridged.currency (Autobridged.TakerPays ab) = "IN"%string ∧
     Autobridged.quality ab = amt 5 4 ∧
     legOnePointer s = length (legOneOffers (engine s)) ∧
     legTwoPointer s = length (legTwoOffers (engine s))).
Proof.
  split.
  { intros O L C U E s L1 L2. apply without_clamps_pass. }
  assert ((λ s,
             (map (λ ab,
                     (Qcanon.this (Autobridged.value (Autobridged.TakerGets ab)),
                      Autobridged.currency (Autobridged.TakerGets ab),
                      Qcanon.this (Autobridged.value (Autobridged.TakerPays ab)),
                      Autobridged.currency (Autobridged.TakerPays ab),
                      Qcanon.this (Autobridged.quality ab)))
                (offersAutobridged s),
              (legOnePointer s, length (legOneOffers (engine s))),
              (legTwoPointer s, length (legTwoOffers (engine s)))))
            <$> finalState (calculate equal_engine)
          = Some ([((40 # 1)%Q, "OUT"%string, (50 # 1)%Q, "IN"%string,
                    (5 # 4)%Q)],
                  (1%nat, 1%nat), (1%nat, 1%nat))) as Hobs by by_evaluation.
  destruct (calculate equal_engine) as [s| |]; try discriminate Hobs.
  simpl in Hobs. injection Hobs as Hm Hi Hn Hj Hk.
  destruct (offersAutobridged s) as [|ab [|]] eqn:Ho; try discriminate Hm.
  simpl in Hm. injection Hm as Hg Hgc Hp Hpc Hq.
  exists s, ab. split; [reflexivity|]. split; [exact Ho|].
  split; [by apply Qc_this_eq|]. split; [exact Hgc|].
  split; [by apply Qc_this_eq|]. split; [exact Hpc|].
  split; [by apply Qc_this_eq|]. split; congruence.
Qed.

(** The general part at the equal-case scenario: [g1 = p2 = 100]. *)
Lemma without_clamps_equal_case_witness :
  ∃ s' ab,
    iteration (enter equal_engine) equal_L1 equal_L2 = Some s' ∧
    offersAutobridged s' = [ab] ∧
    Autobridged.value (Autobridged.TakerGets ab) = amt 40 1 ∧
    Autobridged.value (Autobridged.TakerPays ab) = amt 50 1 ∧
    legOnePointer s' = 1%nat ∧
    legTwoPointer s' = 1%nat.
Proof.
  destruct (proj1 without_clamps_equal_case _ _ _ _ _
              (enter equal_engine) equal_L1 equal_L2)
    as (this' & L1' & Hf & H); [reflexivity | reflexivity | reflexivity |].
  assert (fundLegOne (engine (enter equal_engine)) equal_L1 equal_L2
          = Some (engine (enter equal_engine), equal_L1)) as Hf'
    by reflexivity.
  rewrite Hf' in Hf. injection Hf as <- <-.
  destruct H as (s' & ab & Hit & Ho & Hg & Hp & Hi & Hj);
    [qc_eq | by_evaluation |].
  exists s', ab. split; [exact Hit|]. split; [exact Ho|].
  split; [rewrite Hg; qc_eq|]. split; [rewrite Hp; qc_eq|].
  split; [exact Hi | exact Hj].
Defined.

(** C3 fails on the code.  [setLegOneTakerGetsFunded] compares the funded
    text with [legOneOffer.TakerGets.value], which is [undefined] on the
    numeric [TakerGets] that [assertValidLegOneOffer] demands, and it has no
    branch that clears the flag.  So the flag stays [true] on a fully funded
    offer of 100 of which 60 are left funded, it stays [false] on an offer of
    100 funded in full, and after [calculate] on the leg-one-surplus scenario
    the leg-one offer has 60 of 100 funded and the flag [true]. *)
Theorem setLegOneTakerGetsFunded_flag_stale :
  (λ o', (Amount.compareTo (Utils.getOfferTakerGetsFunded o')
            (Utils.getOfferTakerGets o'),
          is_fully_funded o'))
    <$> setLegOneTakerGetsFunded surplus_engine surplus_L1 (amt 60 1)
  = Some (-1, true) ∧
  (λ o', (Amount.compareTo (Utils.getOfferTakerGetsFunded o')
            (Utils.getOfferTakerGets o'),
          is_fully_funded o'))
    <$> setLegOneTakerGetsFunded under_engine under_L1 (amt 100 1)
  = Some (0, false) ∧
  (λ s, (λ o, (Amount.compareTo (Utils.getOfferTakerGetsFunded o)
                 (Utils.getOfferTakerGets o),
               is_fully_funded o))
          <$> legOneOffers (engine s) !! 0%nat)
    <$> finalState (calculate surplus_engine)
  = Some (Some (-1, true)).
Proof. split; [by_evaluation|]. split; by_evaluation. Qed.

(** C4 fails on the code.  The constructor takes the two currencies and the
    two arrays and never assigns [_issuerGets] or [_issuerPays], which
    [formatAutobridgedOffer] reads: on the equal-case scenario, whose output
    and input are issued by "issuerOut" and "issuerIn", the one emitted offer
    has [undefined] as the issuer of its takerGets and of its takerPays. *)
Theorem emitted_issuers_undefined :
  _issuerGets equal_engine = None ∧
  _issuerPays equal_engine = None ∧
  map (λ ab, (Autobridged.issuer (Autobridged.TakerGets ab),
              Autobridged.issuer (Autobridged.TakerPays ab)))
    <$> returned (calculate equal_engine)
  = Some [(None, None)].
Proof. split; [reflexivity|]. split; [reflexivity | by_evaluation]. Qed.

(** ** Runs for the further properties *)

Import Faulty.

(** Goals of the forms [0 ≤ n] and [¬ 0 < n] on closed numbers. *)
Ltac by_comparison := vm_compute; discriminate.

(** With no leg-one offer the call returns the empty array, whatever leg
    two holds. *)
Lemma calculate_empty_leg_witness :
  calculate no_leg_one_engine = Returned (enter no_leg_one_engine) ∧
  returned (calculate no_leg_one_engine) = Some [].
Proof.
  destruct (calculate_empty_leg no_leg_one_engine) as (Hc & Hr & _);
    [left; reflexivity|].
  split; [exact Hc | exact Hr].
Defined.

(** Storing 7 for "A" is read back as 7, and leaves "B" alone. *)
Lemma ledger_round_trip_witness :
  ∃ this',
    setLeftoverOwnerFunds equal_engine "A" (amt 7 1) = Some this' ∧
    getLeftoverOwnerFunds this' "A" = Some (amt 7 1) ∧
    leftoverOf this' "B" = leftoverOf equal_engine "B".
Proof.
  destruct (ledger_round_trip equal_engine "A" (amt 7 1))
    as ((this' & Hs & Hg & Hfr) & _); [reflexivity|].
  exists this'. split; [exact Hs|]. split; [exact Hg|].
  apply Hfr. discriminate.
Defined.

(** The two offers that the chained scenario returns are marked, and are
    denominated in "OUT" and "IN". *)
Lemma emitted_offers_format_witness :
  ∃ s,
    calculate chain_engine = Returned s ∧
    length (offersAutobridged s) = 2%nat ∧
    Forall (λ ab,
              Autobridged.autobridged ab = true ∧
              Autobridged.currency (Autobridged.TakerGets ab) = "OUT"%string ∧
              Autobridged.currency (Autobridged.TakerPays ab) = "IN"%string ∧
              Autobridged.BookDirectory ab = "00"%string)
      (offersAutobridged s).
Proof.
  assert ((λ s, length (offersAutobridged s))
            <$> finalState (calculate chain_engine) = Some 2%nat) as Hobs
    by by_evaluation.
  destruct (calculate chain_engine) as [s| |] eqn:Hc; try discriminate Hobs.
  simpl in Hobs. injection Hobs as Hn.
  exists s. split; [reflexivity|]. split; [exact Hn|].
  eapply Forall_impl; [exact (emitted_offers_format chain_engine s Hc)|].
  intros ab H. cbv zeta in H.
  destruct H as (Ha & _ & _ & Hg & Hp & _ & Hb).
  split; [exact Ha|]. split; [exact Hg|]. split; [exact Hp | exact Hb].
Defined.

(** The same-owner scenario: the nominal 100 is reduced by 40 to 60, which
    the former funding of 80 covers; the offer is funded for 60 and the
    owner is credited with 20. *)
Lemma clamped_leg_one_same_owner_witness :
  ∃ s' L1',
    iteration (enter owner_engine) owner_L1 owner_L2 = Some s' ∧
    length (offersAutobridged s') = 1%nat ∧
    legOneOffers (engine s') !! 0%nat = Some L1' ∧
    Utils.getOfferTakerGets L1' = amt 60 1 ∧
    Utils.getOfferTakerGetsFunded L1' = amt 60 1 ∧
    initTakerGetsFunded L1' = Some (amt 80 1) ∧
    leftoverOf (engine s') "A" = amt 20 1.
Proof.
  assert (current (enter owner_engine) = Some (owner_L1, owner_L2)) as Hcur
    by reflexivity.
  pose proof (clamped_leg_one_same_owner (enter owner_engine) owner_L1 owner_L2
                Hcur eq_refl eq_refl eq_refl) as H.
  cbv zeta in H.
  destruct H as (s' & ab & L1' & Hit & Ho & _ & _ & _ & _ & Hl & Hn & Hi & _ & Hle);
    [by_evaluation | by_evaluation | by_evaluation |].
  destruct Hle as [Hfun Hleft]; [by_comparison|].
  exists s', L1'. split; [exact Hit|]. split; [by rewrite Ho|].
  split; [exact Hl|]. split; [rewrite Hn; qc_eq|].
  split; [rewrite Hfun; qc_eq|]. split; [rewrite Hi; f_equal; qc_eq|].
  etransitivity; [exact Hleft | qc_eq].
Defined.

(** An offer of 100 funded for 30 at quality 1/2: unclamped it is funded for
    100, clamped again for 30 and 15, and the owner's 50 are still 50. *)
Lemma unclamp_clamp_round_trip_witness :
  ∃ o1 this' o2,
    unclampLegOneOwnerFunds under_engine under_L1 = Some o1 ∧
    Utils.getOfferTakerGetsFunded o1 = amt 100 1 ∧
    clampLegOneOwnerFunds under_engine o1 = Some (this', o2) ∧
    Utils.getOfferTakerGetsFunded o2 = amt 30 1 ∧
    Utils.getOfferTakerPaysFunded o2 = amt 15 1 ∧
    leftoverOf this' "A" = amt 50 1.
Proof.
  destruct (unclamp_clamp_round_trip under_engine under_L1)
    as (o1 & this' & o2 & Hu & Hf1 & Hc & Hf2 & Hp2 & _ & _ & Hl);
    [reflexivity | reflexivity | by_comparison |].
  exists o1, this', o2. split; [exact Hu|]. split; [rewrite Hf1; qc_eq|].
  split; [exact Hc|]. split; [rewrite Hf2; qc_eq|].
  split; [rewrite Hp2; qc_eq|].
  etransitivity; [exact (Hl "A"%string) | qc_eq].
Defined.

(** Neither offer funded: leg one is skipped and nothing is emitted. *)
Lemma skipping_pass_witness :
  ∃ s',
    iteration (enter empty_engine) empty_L1 empty_L2 = Some s' ∧
    offersAutobridged s' = [] ∧
    legOnePointer s' = 1%nat ∧
    legTwoPointer s' = 0%nat.
Proof.
  destruct (skipping_pass (enter empty_engine) empty_L1 empty_L2)
    as (this' & L1' & Hf & H); [reflexivity | reflexivity | reflexivity |].
  cbv zeta in H.
  assert ((λ r, Amount.is_zero (Utils.getOfferTakerGetsFunded r.2))
            <$> fundLegOne (engine (enter empty_engine)) empty_L1 empty_L2
          = Some true) as Hg by by_evaluation.
  rewrite Hf in Hg. simpl in Hg. injection Hg as Hg.
  destruct (H (or_introl Hg)) as (s' & Hit & Ho & _ & _ & _ & Hz & _).
  destruct (Hz Hg) as [Hi Hj].
  exists s'. split; [exact Hit|]. split; [exact Ho|].
  split; [exact Hi | exact Hj].
Defined.

(** The chained scenario ends with the leg-one pointer on the first offer:
    the second leg-one offer is the one passed in, and the first leg-two
    offer differs from the one passed in by its funded texts at most. *)
Lemma run_leaves_alone_witness :
  ∃ s o,
    calculate chain_engine = Returned s ∧
    length (legOneOffers (engine s)) = 2%nat ∧
    legOneOffers (engine s) !! 1%nat = Some chain_L1b ∧
    legTwoOffers (engine s) !! 0%nat = Some o ∧
    sameButFunded chain_L2a o.
Proof.
  assert ((λ s, legOnePointer s) <$> finalState (calculate chain_engine)
          = Some 0%nat) as Hobs by by_evaluation.
  destruct (calculate chain_engine) as [s| |] eqn:Hc; try discriminate Hobs.
  simpl in Hobs. injection Hobs as Hi.
  unfold calculate in Hc. apply loop_Returned in Hc as (Hr & _).
  destruct (run_leaves_alone chain_engine s Hr)
    as (Hn1 & Hn2 & Hb1 & _ & _ & Hi2).
  destruct (lookup_lt_is_Some_2 (legTwoOffers (engine s)) 0%nat) as [o Ho].
  { rewrite Hn2. simpl. lia. }
  destruct (Hi2 _ _ Ho) as (o0 & H0 & Hs).
  change (Some chain_L2a = Some o0) in H0. injection H0 as <-.
  exists s, o. split; [reflexivity|]. split; [exact Hn1|].
  split; [rewrite Hb1 by (rewrite Hi; lia); reflexivity|].
  split; [exact Ho | exact Hs].
Defined.


(** An offer of 100 funded for 30 whose owner has 50 left over: after the
    top-up the two still add up to 80, and "B" has nothing. *)
Lemma top_up_conserves_witness :
  ∃ this' o',
    adjustLegOneFundedAmount under_engine under_L1 = Some (this', o') ∧
    Amount.add (Utils.getOfferTakerGetsFunded o') (leftoverOf this' "A")
    = amt 80 1 ∧
    leftoverOf this' "B" = amt 0 1.
Proof.
  assert (is_fully_funded
            <$> (snd <$> adjustLegOneFundedAmount under_engine under_L1)
          = Some false) as Hobs by by_evaluation.
  destruct (adjustLegOneFundedAmount under_engine under_L1)
    as [[this' o']|] eqn:Ha; [|discriminate Hobs].
  destruct (top_up_conserves under_engine under_L1 this' o' Ha)
    as (Hsum & _ & Hfr).
  exists this', o'. split; [reflexivity|].
  split; [etransitivity; [exact Hsum | qc_eq]|].
  etransitivity; [apply Hfr; discriminate | qc_eq].
Defined.

(** The reduced offer of 20 with the snapshot 30: 20 stay funded and 10 are
    credited to "A". *)
Lemma clamp_conserves_witness :
  ∃ this' o' credit,
    clampLegOneOwnerFunds equal_engine reduced_L1 = Some (this', o') ∧
    nonNegative credit ∧
    Amount.add (Utils.getOfferTakerGetsFunded o') credit = amt 30 1 ∧
    leftoverOf this' "A" = Amount.add (leftoverOf equal_engine "A") credit.
Proof.
  assert (is_fully_funded
            <$> (snd <$> clampLegOneOwnerFunds equal_engine reduced_L1)
          = Some false) as Hobs by by_evaluation.
  destruct (clampLegOneOwnerFunds equal_engine reduced_L1)
    as [[this' o']|] eqn:Hc; [|discriminate Hobs].
  destruct (clamp_conserves equal_engine reduced_L1 (amt 30 1) this' o' Hc)
    as ((credit & Hnn & Hsum & Hl) & _); [reflexivity|].
  exists this', o', credit. split; [reflexivity|]. split; [exact Hnn|].
  split; [exact Hsum | exact Hl].
Defined.

(** The under-funded offer topped up, and topped up again. *)
Lemma top_up_idempotent_witness :
  ∃ this1 o1 this2 o2,
    adjustLegOneFundedAmount under_engine under_L1 = Some (this1, o1) ∧
    adjustLegOneFundedAmount this1 o1 = Some (this2, o2) ∧
    taker_gets_funded o2 = taker_gets_funded o1 ∧
    leftoverOf this2 "A" = leftoverOf this1 "A".
Proof.
  assert (is_fully_funded
            <$> (snd <$> adjustLegOneFundedAmount under_engine under_L1)
          = Some false) as Hobs by by_evaluation.
  destruct (adjustLegOneFundedAmount under_engine under_L1)
    as [[this1 o1]|] eqn:Ha; [|discriminate Hobs].
  destruct (top_up_idempotent under_engine under_L1 this1 o1 Ha)
    as (this2 & o2 & Ha2 & _ & Hg & _ & Hl).
  exists this1, o1, this2, o2. split; [reflexivity|]. split; [exact Ha2|].
  split; [exact Hg | apply Hl].
Defined.

(** One owner, leg two not funded: the leg-two offer is skipped and the
    leg-one offer, funded for 80 of its 100 when the pass began, is left
    funded for 100. *)
Lemma same_owner_skip_keeps_unclamped_witness :
  ∃ s' L1',
    iteration (enter unfunded_engine) owner_L1 unfunded_L2 = Some s' ∧
    legOnePointer s' = 0%nat ∧
    legTwoPointer s' = 1%nat ∧
    legOneOffers (engine s') !! 0%nat = Some L1' ∧
    Utils.getOfferTakerGetsFunded L1' = amt 100 1 ∧
    initTakerGetsFunded L1' = Some (amt 80 1).
Proof.
  destruct (same_owner_skip_keeps_unclamped
              (enter unfunded_engine) owner_L1 unfunded_L2)
    as (s' & L1' & Hit & _ & Hi & Hj & Hl & Hg & Hinit & _);
    [reflexivity | reflexivity | reflexivity | reflexivity
    | by_evaluation | by_evaluation |].
  exists s', L1'. split; [exact Hit|]. split; [exact Hi|].
  split; [exact Hj|]. split; [by rewrite Hi in Hl|].
  split; [rewrite Hg; qc_eq|]. rewrite Hinit; f_equal; qc_eq.
Defined.

(** The same-owner scenario ends with an entry for "A", the owner of its
    leg-one offer. *)
Lemma ledger_entries_are_leg_one_owners_witness :
  ∃ s k o,
    calculate owner_engine = Returned s ∧
    is_Some (_ownerFundsLeftover (engine s) !! "A"%string) ∧
    UInt160.is_valid "A" = true ∧
    legOneOffers owner_engine !! k = Some o ∧
    Account o = "A"%string.
Proof.
  assert ((λ s, Qcanon.this
                  <$> _ownerFundsLeftover (engine s) !! "A"%string)
            <$> finalState (calculate owner_engine)
          = Some (Some (20 # 1)%Q)) as Hobs by by_evaluation.
  destruct (calculate owner_engine) as [s| |] eqn:Hc; try discriminate Hobs.
  simpl in Hobs. injection Hobs as Hl.
  match type of Hl with
  | _ <$> ?m = _ => destruct m as [x|] eqn:Hx; [|discriminate Hl]
  end.
  unfold calculate in Hc. apply loop_Returned in Hc as (Hr & _).
  destruct (ledger_entries_are_leg_one_owners owner_engine s Hr "A"%string)
    as (Hv & k & o & Hk & Ho); [exists x; exact Hx|].
  exists s, k, o. split; [reflexivity|]. split; [exists x; exact Hx|].
  split; [exact Hv|]. split; [exact Hk | exact Ho].
Defined.
